(** * RTMPStreamManager: the stream orchestration engine

    A shallow embedding of the [RTMPStreamManager] class of the standalone
    server (constructor, startStream and its process handlers, stopStream,
    stopAllStreams, setLoopEnabled, loadPlaylist, playNextVideo,
    getPlatformRTMPUrl, buildFFmpegArgs, getResolutionHeight,
    streamToMultiplePlatforms, startUptimeTracking and its timer callback,
    stopUptimeTracking, formatUptime, updateStreamStatus), together with the
    part of the outside world these methods touch: the three PostgreSQL tables
    created by [initializeDatabase], the upload directory, the process runtime,
    the timers and the clock.

    Conventions.
    - Every method runs to completion before the next event is handled (the
      event loop is single threaded; interleavings at [await] are not
      modelled).
    - [console.log] / [console.error] and the stdout/stderr listeners only
      log; they are left out.
    - The database is reachable and has the tables of [initializeDatabase];
      a statement fails only for the reason PostgreSQL gives in the modelled
      fragment: the [SET] clause names a column the table does not have, or
      gives a column a value of another kind.
    - Strings are byte strings (UTF-8); numbers that the code treats as
      integers are [Z]. *)

From Stdlib Require Import ZArith Lia Ascii.
From stdpp Require Import gmap strings list fin_maps pretty sorting.

Local Open Scope Z_scope.

(** ** JavaScript helpers *)

Module JS.

(** [c.toLowerCase()] on an ASCII letter. *)
Definition lower_ascii (c : ascii) : ascii :=
  let n := nat_of_ascii c in
  if (Nat.leb 65 n && Nat.leb n 90)%bool then ascii_of_nat (n + 32)%nat else c.

(** [s.toLowerCase()].  Exact on ASCII and on the Kelvin sign (U+212A, bytes
    226 132 170), the only other code point whose lower-case form is an ASCII
    letter; any other byte is kept, which cannot change the result of a
    comparison with an ASCII label. *)
Fixpoint toLowerCase (s : string) : string :=
  match s with
  | EmptyString => EmptyString
  | String c rest =>
      match c, rest with
      | "226"%char, String "132"%char (String "170"%char rest') =>
          String "k"%char (toLowerCase rest')
      | _, _ => String (lower_ascii c) (toLowerCase rest)
      end
  end.

(** Truthiness of a possibly missing string: [undefined], [null] and the
    empty string are falsy. *)
Definition truthy_str (o : option string) : bool :=
  match o with
  | Some s => negb (String.eqb s "")
  | None => false
  end.

(** Truthiness of a possibly missing integer: [undefined], [null] and 0 are
    falsy. *)
Definition truthy_num (o : option Z) : bool :=
  match o with
  | Some n => negb (n =? 0)
  | None => false
  end.

(** [o || d] on strings and on numbers. *)
Definition or_str (o : option string) (d : string) : string :=
  match o with
  | Some s => if String.eqb s "" then d else s
  | None => d
  end.

Definition or_num (o : option Z) (d : Z) : Z :=
  match o with
  | Some n => if n =? 0 then d else n
  | None => d
  end.

(** [String(n)] / [n.toString()] / a number inside a template literal. *)
Definition toString (n : Z) : string := pretty n.

(** [s.padStart(target, c)] with a one-character filler. *)
Definition padStart (target : nat) (c : ascii) (s : string) : string :=
  Nat.iter (target - String.length s) (String c) s.

End JS.

(** ** Destination profile *)

(** The [config] object handed to [startStream]: built by the callers from a
    [stream_configs] row, so [streamKey] is a string, the other fields may be
    missing. *)
Record StreamConfig := mkConfig {
  platform : option string;
  streamKey : string;
  rtmpUrl : option string;
  resolution : option string;
  framerate : option Z;
  bitrate : option Z
}.

Definition YOUTUBE_URL : string := "rtmp://a.rtmp.youtube.com/live2".
Definition TWITCH_URL : string := "rtmp://live.twitch.tv/app".
Definition FACEBOOK_URL : string := "rtmps://live-api-s.facebook.com:443/rtmp".
Definition LOCAL_URL : string := "rtmp://localhost:1935/live".

(** [getPlatformRTMPUrl(platform, customUrl)]: a switch on
    [platform?.toLowerCase()]. *)
Definition getPlatformRTMPUrl (platform customUrl : option string) : string :=
  match JS.toLowerCase <$> platform with
  | Some p =>
      if String.eqb p "youtube" then YOUTUBE_URL
      else if String.eqb p "twitch" then TWITCH_URL
      else if String.eqb p "facebook" then FACEBOOK_URL
      else if String.eqb p "custom" then JS.or_str customUrl LOCAL_URL
      else JS.or_str customUrl YOUTUBE_URL
  | None => JS.or_str customUrl YOUTUBE_URL
  end.

(** The destination composed in [startStream]:
    [`${rtmpUrl}/${config.streamKey}`]. *)
Definition fullRtmpUrl (config : StreamConfig) : string :=
  getPlatformRTMPUrl (platform config) (rtmpUrl config) +:+ "/" +:+ streamKey config.

(** [getResolutionHeight(resolution)]. *)
Definition getResolutionHeight (res : string) : Z :=
  if (String.eqb res "1920x1080" || String.eqb res "1080p")%bool then 1080
  else if (String.eqb res "1280x720" || String.eqb res "720p")%bool then 720
  else if (String.eqb res "854x480" || String.eqb res "480p")%bool then 480
  else if (String.eqb res "640x360" || String.eqb res "360p")%bool then 360
  else 720.

(** The scaling step of [buildFFmpegArgs], under its guard
    [config.resolution && config.resolution !== 'original']. *)
Definition scale_args (config : StreamConfig) : list string :=
  match resolution config with
  | Some r =>
      if (negb (String.eqb r "") && negb (String.eqb r "original"))%bool
      then ["-vf"; "scale=-2:" +:+ JS.toString (getResolutionHeight r)]
      else []
  | None => []
  end.

Definition video_args (inputPath : string) (config : StreamConfig) : list string :=
  [ "-stream_loop"; "-1";
    "-re";
    "-i"; inputPath;
    "-c:v"; "libx264";
    "-preset"; "veryfast";
    "-tune"; "zerolatency";
    "-pix_fmt"; "yuv420p";
    "-b:v"; JS.toString (JS.or_num (bitrate config) 2500) +:+ "k";
    "-maxrate"; JS.toString (JS.or_num (bitrate config) 2500) +:+ "k";
    "-bufsize"; JS.toString (JS.or_num (bitrate config) 2500 * 2) +:+ "k";
    "-r"; JS.toString (JS.or_num (framerate config) 30);
    "-g"; JS.toString (JS.or_num (framerate config) 30 * 2) ].

Definition audio_args (outputUrl : string) : list string :=
  [ "-c:a"; "aac";
    "-b:a"; "128k";
    "-ar"; "44100";
    "-ac"; "2";
    "-f"; "flv";
    "-reconnect"; "1";
    "-reconnect_streamed"; "1";
    "-reconnect_delay_max"; "5";
    outputUrl ].

(** [buildFFmpegArgs(inputPath, outputUrl, config)]: the initial array, the
    optional [push('-vf', ...)], the final [push]. *)
Definition buildFFmpegArgs (inputPath outputUrl : string) (config : StreamConfig)
  : list string :=
  video_args inputPath config ++ scale_args config ++ audio_args outputUrl.

(** [formatUptime(milliseconds)].  [Math.floor(a / b)] with [b > 0] is [a / b]
    on [Z]; [%] is the truncated remainder [Z.rem]. *)
Definition uptime_seconds (milliseconds : Z) : Z := milliseconds / 1000.
Definition uptime_hours (milliseconds : Z) : Z := uptime_seconds milliseconds / 3600.
Definition uptime_minutes (milliseconds : Z) : Z :=
  Z.rem (uptime_seconds milliseconds) 3600 / 60.
Definition uptime_secs (milliseconds : Z) : Z := Z.rem (uptime_seconds milliseconds) 60.

Definition two_digits (n : Z) : string := JS.padStart 2 "0"%char (JS.toString n).

Definition formatUptime (milliseconds : Z) : string :=
  two_digits (uptime_hours milliseconds) +:+ ":" +:+
  two_digits (uptime_minutes milliseconds) +:+ ":" +:+
  two_digits (uptime_secs milliseconds).

(** ** The persistent store

    The rows of the three tables the engine reads and writes, with the columns
    of the [CREATE TABLE] statements in [initializeDatabase] that the engine
    uses. *)

Record Video := mkVideo {
  video_id : Z;
  title : string;
  filename : string;
  playlist_order : Z
}.

Record ConfigRow := mkConfigRow {
  cfg_id : Z;
  cfg_platform : string;
  cfg_stream_key : string;
  cfg_rtmp_url : option string;
  cfg_resolution : string;
  cfg_framerate : Z;
  cfg_bitrate : Z;
  cfg_is_active : bool
}.

Record StatusRow := mkStatus {
  status_id : Z;
  status : string;
  viewer_count : Z;
  uptime : string;
  current_video_id : option Z;
  started_at : option Z;
  loop_playlist : bool
}.

(** Values the engine passes as query parameters or puts in an update
    object. *)
Inductive jsval :=
| JNull
| JNum (n : Z)
| JStr (s : string)
| JBool (b : bool)
| JDate (t : Z).

Definition js_truthy (v : jsval) : bool :=
  match v with
  | JNull => false
  | JNum n => negb (n =? 0)
  | JStr s => negb (String.eqb s "")
  | JBool b => b
  | JDate _ => true
  end.

(** A plain object as the ordered list of its own properties. *)
Definition jsobj := list (string * jsval).

Fixpoint obj_get (k : string) (o : jsobj) : option jsval :=
  match o with
  | [] => None
  | (k', v) :: o' => if String.eqb k k' then Some v else obj_get k o'
  end.

(** Property assignment: an existing key keeps its position, a new key goes
    last. *)
Fixpoint obj_set (k : string) (v : jsval) (o : jsobj) : jsobj :=
  match o with
  | [] => [(k, v)]
  | (k', v') :: o' => if String.eqb k k' then (k, v) :: o' else (k', v') :: obj_set k v o'
  end.

(** [{ ...base, ...extra }] onto an object literal [base]. *)
Definition obj_spread (base extra : jsobj) : jsobj :=
  fold_left (fun o kv => obj_set kv.1 kv.2 o) extra base.

(** [o.k || d]. *)
Definition obj_get_or (k : string) (o : jsobj) (d : jsval) : jsval :=
  match obj_get k o with
  | Some v => if js_truthy v then v else d
  | None => d
  end.

Module Sql.

(** Unquoted identifiers are folded to lower case. *)
Fixpoint fold_ident (s : string) : string :=
  match s with
  | EmptyString => EmptyString
  | String c rest => String (JS.lower_ascii c) (fold_ident rest)
  end.

(** One [col = $i] of an [UPDATE stream_status SET ...]: the effect on a
    row, or [None] when the statement is rejected because [stream_status]
    (columns [id], [status], [viewer_count], [uptime], [current_video_id],
    [started_at], [loop_playlist]) has no such column, or because the value
    is not of the kind of the column ([status] is [NOT NULL]).  The methods
    of the engine only send values of the kind of the column they name. *)
Definition assign (col : string) (v : jsval) : option (StatusRow → StatusRow) :=
  let c := fold_ident col in
  if String.eqb c "id" then
    match v with
    | JNum n => Some (λ r, mkStatus n (status r) (viewer_count r) (uptime r)
                             (current_video_id r) (started_at r) (loop_playlist r))
    | _ => None
    end
  else if String.eqb c "status" then
    match v with
    | JStr s => Some (λ r, mkStatus (status_id r) s (viewer_count r) (uptime r)
                             (current_video_id r) (started_at r) (loop_playlist r))
    | _ => None
    end
  else if String.eqb c "viewer_count" then
    match v with
    | JNum n => Some (λ r, mkStatus (status_id r) (status r) n (uptime r)
                             (current_video_id r) (started_at r) (loop_playlist r))
    | _ => None
    end
  else if String.eqb c "uptime" then
    match v with
    | JStr s => Some (λ r, mkStatus (status_id r) (status r) (viewer_count r) s
                             (current_video_id r) (started_at r) (loop_playlist r))
    | _ => None
    end
  else if String.eqb c "current_video_id" then
    match v with
    | JNum n => Some (λ r, mkStatus (status_id r) (status r) (viewer_count r) (uptime r)
                             (Some n) (started_at r) (loop_playlist r))
    | JNull => Some (λ r, mkStatus (status_id r) (status r) (viewer_count r) (uptime r)
                            None (started_at r) (loop_playlist r))
    | _ => None
    end
  else if String.eqb c "started_at" then
    match v with
    | JDate t => Some (λ r, mkStatus (status_id r) (status r) (viewer_count r) (uptime r)
                              (current_video_id r) (Some t) (loop_playlist r))
    | JNull => Some (λ r, mkStatus (status_id r) (status r) (viewer_count r) (uptime r)
                            (current_video_id r) None (loop_playlist r))
    | _ => None
    end
  else if String.eqb c "loop_playlist" then
    match v with
    | JBool b => Some (λ r, mkStatus (status_id r) (status r) (viewer_count r) (uptime r)
                              (current_video_id r) (started_at r) b)
    | _ => None
    end
  else None.

(** The whole [SET] clause, left to right. *)
Fixpoint assign_all (sets : jsobj) : option (StatusRow → StatusRow) :=
  match sets with
  | [] => Some (λ r, r)
  | (col, v) :: rest =>
      match assign col v, assign_all rest with
      | Some f, Some g => Some (λ r, g (f r))
      | _, _ => None
      end
  end.

(** [SELECT MAX(id) FROM stream_status]. *)
Fixpoint max_id (rows : list StatusRow) : option Z :=
  match rows with
  | [] => None
  | r :: rest =>
      match max_id rest with
      | Some m => Some (Z.max (status_id r) m)
      | None => Some (status_id r)
      end
  end.

(** [SELECT * FROM stream_status ORDER BY id DESC LIMIT 1], as [rows[0]]. *)
Definition latest_status (rows : list StatusRow) : option StatusRow :=
  match max_id rows with
  | Some m => List.find (λ r, status_id r =? m) rows
  | None => None
  end.

(** [UPDATE stream_status SET ... WHERE id = (SELECT MAX(id) FROM
    stream_status)]; [None] is a rejected statement. *)
Definition update_latest (sets : jsobj) (rows : list StatusRow)
  : option (list StatusRow) :=
  match assign_all sets with
  | Some f =>
      Some (match max_id rows with
            | Some m => List.map (λ r, if status_id r =? m then f r else r) rows
            | None => rows
            end)
  | None => None
  end.

(** [UPDATE stream_status SET ...] without a [WHERE]. *)
Definition update_all (sets : jsobj) (rows : list StatusRow)
  : option (list StatusRow) :=
  match assign_all sets with
  | Some f => Some (List.map f rows)
  | None => None
  end.

(** [SELECT * FROM videos WHERE id = $1]. *)
Definition select_video (id : Z) (vs : list Video) : list Video :=
  List.filter (λ v, video_id v =? id) vs.

(** [SELECT * FROM videos ORDER BY playlist_order ASC]: a stable insertion
    sort on [playlist_order]. *)
Fixpoint insert_video (v : Video) (vs : list Video) : list Video :=
  match vs with
  | [] => [v]
  | w :: rest =>
      if playlist_order v <=? playlist_order w then v :: vs
      else w :: insert_video v rest
  end.

Definition videos_by_order (vs : list Video) : list Video :=
  fold_right insert_video [] vs.

(** [SELECT * FROM stream_configs WHERE is_active = true ORDER BY id DESC
    LIMIT 1], as [rows[0]]. *)
Fixpoint active_config (cs : list ConfigRow) : option ConfigRow :=
  match cs with
  | [] => None
  | c :: rest =>
      match active_config rest with
      | Some d => if (cfg_is_active c && (cfg_id d <? cfg_id c))%bool then Some c else Some d
      | None => if cfg_is_active c then Some c else None
      end
  end.

End Sql.

(** ** The world outside the engine *)

(** A registry entry: the [{ mock: true }] marker or a child process. *)
Inductive Handle :=
| Mock
| Child (pid : nat).

Record World := mkWorld {
  videos : list Video;
  stream_configs : list ConfigRow;
  stream_status : list StatusRow;
  files : gset string;           (* paths for which [fs.existsSync] is true *)
  child_process : bool;          (* [require('child_process')] succeeds *)
  spawn_ok : bool;               (* [spawn] returns a handle; otherwise it throws *)
  clock : Z;                     (* [Date.now()] *)
  spawned : list (list string);  (* arguments of the ffmpeg processes started; the
                                    pid is the position *)
  killed : gset nat;             (* pids that were sent SIGTERM *)
  next_timer : nat;              (* next id [setInterval] returns *)
  live_timers : gset nat         (* intervals set and not cleared *)
}.

(** ** The engine *)

Record Manager := mkManager {
  activeStreams : gmap string Handle;
  streamConfigs : gmap string StreamConfig;
  loopEnabled : bool;
  uptimeInterval : option nat;
  streamStartTime : option Z;
  currentVideoIndex : Z;
  playlist : list Video
}.

(** [new RTMPStreamManager()]. *)
Definition constructor : Manager :=
  mkManager ∅ ∅ false None None 0 [].

(** Field assignments [this.f = x]. *)
Definition set_activeStreams (x : gmap string Handle) (m : Manager) : Manager :=
  mkManager x (streamConfigs m) (loopEnabled m) (uptimeInterval m)
            (streamStartTime m) (currentVideoIndex m) (playlist m).
Definition set_streamConfigs (x : gmap string StreamConfig) (m : Manager) : Manager :=
  mkManager (activeStreams m) x (loopEnabled m) (uptimeInterval m)
            (streamStartTime m) (currentVideoIndex m) (playlist m).
Definition set_loopEnabled (x : bool) (m : Manager) : Manager :=
  mkManager (activeStreams m) (streamConfigs m) x (uptimeInterval m)
            (streamStartTime m) (currentVideoIndex m) (playlist m).
Definition set_uptimeInterval (x : option nat) (m : Manager) : Manager :=
  mkManager (activeStreams m) (streamConfigs m) (loopEnabled m) x
            (streamStartTime m) (currentVideoIndex m) (playlist m).
Definition set_streamStartTime (x : option Z) (m : Manager) : Manager :=
  mkManager (activeStreams m) (streamConfigs m) (loopEnabled m) (uptimeInterval m)
            x (currentVideoIndex m) (playlist m).
Definition set_currentVideoIndex (x : Z) (m : Manager) : Manager :=
  mkManager (activeStreams m) (streamConfigs m) (loopEnabled m) (uptimeInterval m)
            (streamStartTime m) x (playlist m).
Definition set_playlist (x : list Video) (m : Manager) : Manager :=
  mkManager (activeStreams m) (streamConfigs m) (loopEnabled m) (uptimeInterval m)
            (streamStartTime m) (currentVideoIndex m) x.

(** Changes of the world. *)
Definition set_stream_status (x : list StatusRow) (w : World) : World :=
  mkWorld (videos w) (stream_configs w) x (files w) (child_process w) (spawn_ok w)
          (clock w) (spawned w) (killed w) (next_timer w) (live_timers w).
Definition set_spawned (x : list (list string)) (w : World) : World :=
  mkWorld (videos w) (stream_configs w) (stream_status w) (files w) (child_process w)
          (spawn_ok w) (clock w) x (killed w) (next_timer w) (live_timers w).
Definition set_killed (x : gset nat) (w : World) : World :=
  mkWorld (videos w) (stream_configs w) (stream_status w) (files w) (child_process w)
          (spawn_ok w) (clock w) (spawned w) x (next_timer w) (live_timers w).
Definition set_timers (n : nat) (x : gset nat) (w : World) : World :=
  mkWorld (videos w) (stream_configs w) (stream_status w) (files w) (child_process w)
          (spawn_ok w) (clock w) (spawned w) (killed w) n x.

(** ** Methods as computations

    A method reads and writes the engine and the world, and either returns or
    throws; what it changed before it threw stays changed. *)

Inductive Outcome (A : Type) :=
| Returned (a : A)
| Thrown (message : string).
Arguments Returned {A} a.
Arguments Thrown {A} message.

Definition M (A : Type) : Type := Manager → World → Outcome A * Manager * World.

Definition ret {A} (a : A) : M A := λ m w, (Returned a, m, w).

Definition throw {A} (message : string) : M A := λ m w, (Thrown message, m, w).

Definition bind {A B} (c : M A) (k : A → M B) : M B :=
  λ m w,
    match c m w with
    | (Returned a, m', w') => k a m' w'
    | (Thrown e, m', w') => (Thrown e, m', w')
    end.

(** [try { c } catch (error) { h }]. *)
Definition try_catch {A} (c : M A) (h : string → M A) : M A :=
  λ m w,
    match c m w with
    | (Returned a, m', w') => (Returned a, m', w')
    | (Thrown e, m', w') => h e m' w'
    end.

Definition this : M Manager := λ m w, (Returned m, m, w).
Definition world : M World := λ m w, (Returned w, m, w).
Definition assign_this (f : Manager → Manager) : M unit := λ m w, (Returned tt, f m, w).
Definition effect (f : World → World) : M unit := λ m w, (Returned tt, m, f w).

Notation "'let*' x ':=' c 'in' k" := (bind c (λ x, k))
  (at level 10, x name, c at level 100, k at level 200).
Notation "c ';;;' k" := (bind c (λ _, k))
  (at level 100, k at level 200, right associativity).

(** The result, the engine and the world after a computation. *)
Definition result_of {A} (r : Outcome A * Manager * World) : Outcome A := r.1.1.
Definition engine_of {A} (r : Outcome A * Manager * World) : Manager := r.1.2.
Definition world_of {A} (r : Outcome A * Manager * World) : World := r.2.

(** *** The store and the runtime, as seen by the engine *)

(** [db.query('UPDATE stream_status SET ... WHERE id = (SELECT MAX(id) ...)')]. *)
Definition db_update_latest (sets : jsobj) : M unit :=
  let* w := world in
  match Sql.update_latest sets (stream_status w) with
  | Some rows => effect (set_stream_status rows)
  | None => throw "column does not exist"
  end.

(** [db.query('UPDATE stream_status SET ...')]. *)
Definition db_update_all (sets : jsobj) : M unit :=
  let* w := world in
  match Sql.update_all sets (stream_status w) with
  | Some rows => effect (set_stream_status rows)
  | None => throw "column does not exist"
  end.

(** [spawn('ffmpeg', args)]. *)
Definition spawn (args : list string) : M nat :=
  let* w := world in
  if spawn_ok w then
    effect (set_spawned (spawned w ++ [args])) ;;;
    ret (length (spawned w))
  else throw "spawn failed".

(** [process.kill('SIGTERM')]. *)
Definition kill (pid : nat) : M unit :=
  effect (λ w, set_killed ({[pid]} ∪ killed w) w).

(** *** Uptime tracking *)

(** [stopUptimeTracking()]. *)
Definition stopUptimeTracking : M unit :=
  let* m := this in
  match uptimeInterval m with
  | Some t =>
      effect (λ w, set_timers (next_timer w) (live_timers w ∖ {[t]}) w) ;;;
      assign_this (set_uptimeInterval None)
  | None => ret tt
  end ;;;
  assign_this (set_streamStartTime None).

(** [startUptimeTracking()]; the callback handed to [setInterval] is
    [uptime_tick] below. *)
Definition startUptimeTracking : M unit :=
  let* w := world in
  assign_this (set_streamStartTime (Some (clock w))) ;;;
  stopUptimeTracking ;;;
  let* w := world in
  effect (set_timers (S (next_timer w)) ({[next_timer w]} ∪ live_timers w)) ;;;
  assign_this (set_uptimeInterval (Some (next_timer w))).

(** The viewer count of a tick; [floor100] is [Math.floor(Math.random() * 100)]. *)
Definition baseViewers : Z := 50.
Definition randomVariation (floor100 : Z) : Z := floor100 - 50.
Definition viewerCount (floor100 : Z) : Z := Z.max 0 (baseViewers + randomVariation floor100).

(** The interval callback of [startUptimeTracking]. *)
Definition uptime_tick (floor100 : Z) : M unit :=
  let* m := this in
  match streamStartTime m with
  | Some t0 =>
      if (0 <? size (activeStreams m))%nat then
        let* w := world in
        let uptimeMs := clock w - t0 in
        let uptimeString := formatUptime uptimeMs in
        try_catch
          (let* w := world in
           match Sql.latest_status (stream_status w) with
           | Some st =>
               if String.eqb (status st) "live" then
                 db_update_latest [("uptime", JStr uptimeString);
                                   ("viewer_count", JNum (viewerCount floor100))]
               else ret tt
           | None => ret tt
           end)
          (λ _, ret tt)
      else ret tt
  | None => ret tt
  end.

(** [updateStreamStatus(status, videoId, additionalData)]. *)
Definition updateData (now : Z) (status : string) (videoId : jsval)
    (additionalData : jsobj) : jsobj :=
  obj_spread
    [ ("status", JStr status);
      ("current_video_id", videoId);
      ("started_at", if String.eqb status "live" then JDate now else JNull);
      ("viewer_count", obj_get_or "viewerCount" additionalData (JNum 0));
      ("uptime", obj_get_or "uptime" additionalData (JStr "00:00:00"));
      ("loop_playlist",
         match obj_get "loopPlaylist" additionalData with
         | Some v => v
         | None => JBool false
         end) ]
    additionalData.

Definition updateStreamStatus (status : string) (videoId : jsval)
    (additionalData : jsobj) : M unit :=
  try_catch
    (let* w := world in
     db_update_latest (updateData (clock w) status videoId additionalData))
    (λ _, ret tt).

(** *** Stopping *)

(** The loop of the stop-all branch: SIGTERM to every entry that is not a
    mock. *)
Definition kill_all (streams : gmap string Handle) : M unit :=
  effect (λ w,
    set_killed
      (map_fold (λ _ h acc, match h with Child pid => {[pid]} ∪ acc | Mock => acc end)
                (killed w) streams)
      w).

(** [stopStream(streamKey = null)]. *)
Definition stopStream (streamKey : option string) : M bool :=
  try_catch
    (let* m := this in
     (if JS.truthy_str streamKey then
        let key := default "" streamKey in
        match activeStreams m !! key with
        | Some (Child pid) => kill pid
        | _ => ret tt
        end ;;;
        assign_this (λ m, set_activeStreams (delete key (activeStreams m)) m)
      else
        kill_all (activeStreams m) ;;;
        assign_this (set_activeStreams ∅)) ;;;
     stopUptimeTracking ;;;
     ret true)
    (λ _, ret false).

(** [stopAllStreams()]. *)
Definition stopAllStreams : M bool := stopStream None.

(** [setLoopEnabled(enabled)], [isLoopEnabled()], [isStreaming()]. *)
Definition setLoopEnabled (enabled : bool) : M unit :=
  assign_this (set_loopEnabled enabled).

Definition isLoopEnabled : M bool :=
  let* m := this in ret (loopEnabled m).

Definition isStreaming : M bool :=
  let* m := this in ret (0 <? size (activeStreams m))%nat.

(** [loadPlaylist()]. *)
Definition loadPlaylist : M unit :=
  try_catch
    (let* w := world in
     assign_this (set_playlist (Sql.videos_by_order (videos w))))
    (λ _, assign_this (set_playlist [])).

(** *** Starting *)

(** [path.join(__dirname, 'uploads', video.filename)], relative to
    [__dirname]. *)
Definition videoPath (video : Video) : string := "uploads/" +:+ filename video.

(** [`video_${videoId}`] and [`multistream_${videoId}`]. *)
Definition video_key (videoId : Z) : string := "video_" +:+ JS.toString videoId.
Definition multistream_key (videoId : Z) : string := "multistream_" +:+ JS.toString videoId.

(** [startStream(videoId, config)].  The [close] and [error] listeners it
    registers on the child are [on_close (video_key videoId)] and
    [on_error (video_key videoId)] below. *)
Definition startStream (videoId : Z) (config : StreamConfig) : M bool :=
  try_catch
    (let* w := world in
     match Sql.select_video videoId (videos w) with
     | [] => throw "Video not found"
     | video :: _ =>
         if negb (bool_decide (videoPath video ∈ files w)) then
           throw "Video file not found on disk"
         else
           let streamKey := video_key videoId in
           let* m := this in
           (if bool_decide (is_Some (activeStreams m !! streamKey)) then
              stopStream (Some streamKey) ;;; ret tt
            else ret tt) ;;;
           let ffmpegArgs := buildFFmpegArgs (videoPath video) (fullRtmpUrl config) config in
           if negb (child_process w) then
             assign_this (λ m, set_activeStreams (<[streamKey := Mock]> (activeStreams m)) m) ;;;
             assign_this (set_streamStartTime (Some (clock w))) ;;;
             startUptimeTracking ;;;
             ret true
           else
             let* pid := spawn ffmpegArgs in
             assign_this (λ m, set_activeStreams (<[streamKey := Child pid]> (activeStreams m)) m) ;;;
             assign_this (λ m, set_streamConfigs (<[streamKey := config]> (streamConfigs m)) m) ;;;
             assign_this (set_streamStartTime (Some (clock w))) ;;;
             startUptimeTracking ;;;
             loadPlaylist ;;;
             ret true
     end)
    (λ _, ret false).

(** *** The playlist advancer *)

(** [playlist.findIndex(v => v.id === id)]. *)
Fixpoint findIndex (id : Z) (vs : list Video) : Z :=
  match vs with
  | [] => -1
  | v :: rest =>
      if video_id v =? id then 0
      else let i := findIndex id rest in if i <? 0 then -1 else i + 1
  end.

(** [playlist[i]]. *)
Definition playlist_at (vs : list Video) (i : Z) : option Video :=
  if i <? 0 then None else vs !! Z.to_nat i.

(** The profile object [playNextVideo] builds from the active
    [stream_configs] row. *)
Definition config_of_row (c : ConfigRow) : StreamConfig :=
  mkConfig (Some (cfg_platform c)) (cfg_stream_key c) (cfg_rtmp_url c)
           (Some (cfg_resolution c)) (Some (cfg_framerate c)) (Some (cfg_bitrate c)).

(** [playNextVideo()]. *)
Definition playNextVideo : M unit :=
  let* m := this in
  if (negb (loopEnabled m) || (length (playlist m) =? 0)%nat)%bool then ret tt
  else
    try_catch
      (let* w := world in
       let currentVideoId :=
         match Sql.latest_status (stream_status w) with
         | Some st => current_video_id st
         | None => None
         end in
       (if JS.truthy_num currentVideoId then
          assign_this (λ m, set_currentVideoIndex
                              (findIndex (default 0 currentVideoId) (playlist m)) m)
        else ret tt) ;;;
       assign_this (λ m, set_currentVideoIndex
                           (Z.rem (currentVideoIndex m + 1) (Z.of_nat (length (playlist m)))) m) ;;;
       let* m := this in
       match playlist_at (playlist m) (currentVideoIndex m) with
       | Some nextVideo =>
           db_update_all [("current_video_id", JNum (video_id nextVideo))] ;;;
           let* w := world in
           match Sql.active_config (stream_configs w) with
           | Some streamConfig =>
               startStream (video_id nextVideo) (config_of_row streamConfig) ;;; ret tt
           | None => ret tt
           end
       | None => ret tt
       end)
      (λ _, ret tt).

(** *** Process events of a primary session *)

(** The [close] listener registered by [startStream]; [streamKey] is the key
    captured when the process was started. *)
Definition on_close (streamKey : string) (code : Z) : M unit :=
  assign_this (λ m, set_activeStreams (delete streamKey (activeStreams m)) m) ;;;
  let* m := this in
  if loopEnabled m then playNextVideo
  else
    stopUptimeTracking ;;;
    updateStreamStatus "offline" JNull
      [ ("viewerCount", JNum 0); ("uptime", JStr "00:00:00"); ("loopPlaylist", JBool false) ].

(** The [error] listener registered by [startStream]. *)
Definition on_error (streamKey : string) (message : string) : M unit :=
  assign_this (λ m, set_activeStreams (delete streamKey (activeStreams m)) m) ;;;
  stopUptimeTracking ;;;
  updateStreamStatus "error" JNull
    [ ("viewerCount", JNum 0); ("uptime", JStr "00:00:00"); ("loopPlaylist", JBool false);
      ("errorMessage", JStr message) ].

(** *** Multi-destination sessions *)

(** One element of [platforms]. *)
Record Destination := mkDestination { dest_url : string; dest_key : string }.

Definition multi_args (inputPath : string) (platforms : list Destination) : list string :=
  [ "-re"; "-i"; inputPath; "-c:v"; "libx264"; "-c:a"; "aac"; "-preset"; "veryfast";
    "-maxrate"; "3000k"; "-bufsize"; "6000k"; "-vf"; "scale=-2:720"; "-g"; "60";
    "-r"; "30"; "-f"; "flv" ]
  ++ concat (List.map (λ p, ["-f"; "flv"; dest_url p +:+ "/" +:+ dest_key p]) platforms).

(** [streamToMultiplePlatforms(videoId, platforms)].  The listeners it
    registers are [multi_on_close] and [multi_on_error] with the key
    [multistream_key videoId]. *)
Definition streamToMultiplePlatforms (videoId : Z) (platforms : list Destination) : M bool :=
  try_catch
    (let* w := world in
     match Sql.select_video videoId (videos w) with
     | [] => throw "Video not found"
     | video :: _ =>
         let streamKey := multistream_key videoId in
         let* m := this in
         (if bool_decide (is_Some (activeStreams m !! streamKey)) then
            stopStream (Some streamKey) ;;; ret tt
          else ret tt) ;;;
         let args := multi_args (videoPath video) platforms in
         if negb (child_process w) then
           assign_this (λ m, set_activeStreams (<[streamKey := Mock]> (activeStreams m)) m) ;;;
           ret true
         else
           let* pid := spawn args in
           assign_this (λ m, set_activeStreams (<[streamKey := Child pid]> (activeStreams m)) m) ;;;
           ret true
     end)
    (λ _, ret false).

(** The [close] and [error] listeners of a multi-destination process. *)
Definition multi_on_close (streamKey : string) (code : Z) : M unit :=
  assign_this (λ m, set_activeStreams (delete streamKey (activeStreams m)) m).

Definition multi_on_error (streamKey : string) (message : string) : M unit :=
  assign_this (λ m, set_activeStreams (delete streamKey (activeStreams m)) m).

(** ** Auxiliary states used in the statements *)

(** The engine with uptime tracking stopped, and the world after the
    [clearInterval] of [stopUptimeTracking]. *)
Definition tracking_stopped (m : Manager) : Manager :=
  set_streamStartTime None (set_uptimeInterval None m).

Definition interval_cleared (t : option nat) (w : World) : World :=
  match t with
  | Some t => set_timers (next_timer w) (live_timers w ∖ {[t]}) w
  | None => w
  end.

(** The update objects of the two listeners of a primary session. *)
Definition close_data : jsobj :=
  [ ("viewerCount", JNum 0); ("uptime", JStr "00:00:00"); ("loopPlaylist", JBool false) ].

Definition error_data (message : string) : jsobj :=
  [ ("viewerCount", JNum 0); ("uptime", JStr "00:00:00"); ("loopPlaylist", JBool false);
    ("errorMessage", JStr message) ].

Definition entry_deleted (streamKey : string) (m : Manager) : Manager :=
  set_activeStreams (delete streamKey (activeStreams m)) m.

(** The engine and the world once [stopStream(key)] has run for a non-empty
    key. *)
Definition one_stopped (key : string) (m : Manager) : Manager :=
  tracking_stopped (entry_deleted key m).

Definition one_signalled (key : string) (m : Manager) (w : World) : World :=
  interval_cleared (uptimeInterval m)
    (match activeStreams m !! key with
     | Some (Child pid) => set_killed ({[pid]} ∪ killed w) w
     | _ => w
     end).

(** The engine and the world once [stopStream()] has run without a key. *)
Definition all_stopped (m : Manager) : Manager :=
  tracking_stopped (set_activeStreams ∅ m).

Definition all_signalled (m : Manager) (w : World) : World :=
  interval_cleared (uptimeInterval m)
    (set_killed
       (map_fold (λ _ h acc, match h with Child pid => {[pid]} ∪ acc | Mock => acc end)
                 (killed w) (activeStreams m))
       w).

(** [SET current_video_id = n] on one row. *)
Definition with_current_video (n : option Z) (r : StatusRow) : StatusRow :=
  mkStatus (status_id r) (status r) (viewer_count r) (uptime r) n (started_at r)
           (loop_playlist r).

(** [SET uptime = u, viewer_count = v] on one row. *)
Definition with_uptime_viewers (u : string) (v : Z) (r : StatusRow) : StatusRow :=
  mkStatus (status_id r) (status r) v u (current_video_id r) (started_at r)
           (loop_playlist r).

(** ** Invariants of computations *)

(** [stable I c]: if [I] holds before [c], it holds after it, whether [c]
    returns or throws. *)
Definition stable {A} (I : Manager → World → Prop) (c : M A) : Prop :=
  ∀ m w, I m w → I (engine_of (c m w)) (world_of (c m w)).

(** A property that does not depend on the registry, the stored profiles, the
    uptime fields, the processes or the timers, and that survives a reload of
    the playlist. *)
Record frame (I : Manager → World → Prop) : Prop := mkFrame {
  frame_streams : ∀ x m w, I m w → I (set_activeStreams x m) w;
  frame_configs : ∀ x m w, I m w → I (set_streamConfigs x m) w;
  frame_interval : ∀ x m w, I m w → I (set_uptimeInterval x m) w;
  frame_start : ∀ x m w, I m w → I (set_streamStartTime x m) w;
  frame_playlist : ∀ m w, I m w → I (set_playlist (Sql.videos_by_order (videos w)) m) w;
  frame_spawned : ∀ x m w, I m w → I m (set_spawned x w);
  frame_killed : ∀ x m w, I m w → I m (set_killed x w);
  frame_timers : ∀ n x m w, I m w → I m (set_timers n x w)
}.

(** A [frame] that moreover does not depend on the playlist cursor nor on the
    [stream_status] rows. *)
Record frame_status (I : Manager → World → Prop) : Prop := mkFrameStatus {
  frame_cursor : ∀ x m w, I m w → I (set_currentVideoIndex x m) w;
  frame_rows : ∀ x m w, I m w → I m (set_stream_status x w)
}.

(** ** The engine as a transition system *)

(** What can happen to the engine: a call of one of its methods, or an event
    delivered to a listener or to the interval callback. *)
Inductive Call :=
| StartStream (videoId : Z) (config : StreamConfig)
| StopStream (streamKey : option string)
| StopAllStreams
| SetLoopEnabled (enabled : bool)
| IsLoopEnabled
| IsStreaming
| LoadPlaylist
| PlayNextVideo
| StreamToMultiplePlatforms (videoId : Z) (platforms : list Destination)
| StartUptimeTracking
| StopUptimeTracking
| UpdateStreamStatus (status : string) (videoId : jsval) (additionalData : jsobj)
| Close (streamKey : string) (code : Z)
| Error (streamKey : string) (message : string)
| MultiClose (streamKey : string) (code : Z)
| MultiError (streamKey : string) (message : string)
| Tick (floor100 : Z).

Definition run (c : Call) : M unit :=
  match c with
  | StartStream videoId config => startStream videoId config ;;; ret tt
  | StopStream streamKey => stopStream streamKey ;;; ret tt
  | StopAllStreams => stopAllStreams ;;; ret tt
  | SetLoopEnabled enabled => setLoopEnabled enabled
  | IsLoopEnabled => isLoopEnabled ;;; ret tt
  | IsStreaming => isStreaming ;;; ret tt
  | LoadPlaylist => loadPlaylist
  | PlayNextVideo => playNextVideo
  | StreamToMultiplePlatforms videoId platforms =>
      streamToMultiplePlatforms videoId platforms ;;; ret tt
  | StartUptimeTracking => startUptimeTracking
  | StopUptimeTracking => stopUptimeTracking
  | UpdateStreamStatus status videoId additionalData =>
      updateStreamStatus status videoId additionalData
  | Close streamKey code => on_close streamKey code
  | Error streamKey message => on_error streamKey message
  | MultiClose streamKey code => multi_on_close streamKey code
  | MultiError streamKey message => multi_on_error streamKey message
  | Tick floor100 => uptime_tick floor100
  end.

Definition is_SetLoopEnabled (c : Call) : bool :=
  match c with
  | SetLoopEnabled _ => true
  | _ => false
  end.

(** The states the engine can be in: it is constructed once, then calls and
    events happen, and between them the rest of the server may change the
    world (the routes write the tables, files are uploaded, time passes). *)
Inductive reachable : Manager → World → Prop :=
| reachable_new w : reachable constructor w
| reachable_run c m w :
    reachable m w → reachable (engine_of (run c m w)) (world_of (run c m w))
| reachable_world m w w' : reachable m w → reachable m w'.

(** ** Observations *)

(** The persisted loop flag of every status row. *)
Definition persisted_loop_flags (w : World) : list (Z * bool) :=
  (λ r, (status_id r, loop_playlist r)) <$> stream_status w.

(** The persisted lifecycle state of every status row. *)
Definition persisted_states (w : World) : list (Z * string) :=
  (λ r, (status_id r, status r)) <$> stream_status w.

(** The current-item reference: [current_video_id] of the latest status
    row. *)
Definition current_item (w : World) : option Z :=
  match Sql.latest_status (stream_status w) with
  | Some st => current_video_id st
  | None => None
  end.

(** ** A small deployment

    Two items A and B with their files, one status row saying that A is live,
    the YouTube profile with key [abc]. *)
Definition profile_abc : StreamConfig :=
  mkConfig (Some "youtube"%string) "abc" None (Some "720p"%string) (Some 30) (Some 2500).

Definition row_abc : ConfigRow :=
  mkConfigRow 1 "youtube" "abc" None "720p" 30 2500 true.

Definition item_A : Video := mkVideo 1 "A" "a.mp4" 1.
Definition item_B : Video := mkVideo 2 "B" "b.mp4" 2.

Definition live_row : StatusRow :=
  mkStatus 1 "live" 7 "00:00:10" (Some 1) (Some 0) false.

Definition world_AB (profiles : list ConfigRow) : World :=
  mkWorld [item_A; item_B] profiles [live_row]
          {[ "uploads/a.mp4"%string; "uploads/b.mp4"%string ]}
          true true 1000 [] ∅ 0 ∅.

(** [startStream(1, profile)] on a new engine. *)
Definition streaming_A (profiles : list ConfigRow) : Outcome bool * Manager * World :=
  startStream 1 profile_abc constructor (world_AB profiles).

(** The same with the loop switched on after the start. *)
Definition looping_A (profiles : list ConfigRow) : Outcome unit * Manager * World :=
  setLoopEnabled true (engine_of (streaming_A profiles)) (world_of (streaming_A profiles)).

(** Two decimal digits. *)
Definition digit (d : Z) : ascii := ascii_of_nat (48 + Z.to_nat d).
Definition digit_pair (n : Z) : string :=
  String (digit (n / 10)) (String (digit (n mod 10)) EmptyString).

(** The world after a tick that writes: [uptime] and [viewer_count] of the
    latest row are replaced. *)
Definition tick_written (t0 floor100 : Z) (w : World) : World :=
  set_stream_status
    (match Sql.max_id (stream_status w) with
     | Some i =>
         List.map (λ r, if status_id r =? i
                        then with_uptime_viewers (formatUptime (clock w - t0))
                                                 (viewerCount floor100) r
                        else r)
                  (stream_status w)
     | None => stream_status w
     end) w.

(** The eight resolution names of [getResolutionHeight]. *)
Definition known_resolutions : list string :=
  [ "1920x1080"; "1080p"; "1280x720"; "720p"; "854x480"; "480p"; "640x360"; "360p" ]%string.

(** The four platform names of [getPlatformRTMPUrl]. *)
Definition known_platforms : list string :=
  [ "youtube"; "twitch"; "facebook"; "custom" ]%string.

(** The same deployment with the upload directory empty, and with a runtime
    whose [spawn] throws. *)
Definition world_no_files : World :=
  mkWorld [item_A; item_B] [] [live_row] ∅ true true 1000 [] ∅ 0 ∅.

Definition world_no_spawn : World :=
  mkWorld [item_A; item_B] [] [live_row]
          {[ "uploads/a.mp4"%string; "uploads/b.mp4"%string ]}
          true false 1000 [] ∅ 0 ∅.

(** The deployment without an active profile, A streaming with the loop on,
    after the process of A has ended: the advancer has moved the current item
    to B and, for want of a profile, started nothing. *)
Definition idle_after_advance : Outcome unit * Manager * World :=
  on_close "video_1" 0 (engine_of (looping_A [])) (world_of (looping_A [])).

(** The last part of [playNextVideo], once the new current item is persisted:
    read the active profile and start a session for the item. *)
Definition start_next (nextVideo : Video) : M unit :=
  let* w := world in
  match Sql.active_config (stream_configs w) with
  | Some streamConfig =>
      startStream (video_id nextVideo) (config_of_row streamConfig) ;;; ret tt
  | None => ret tt
  end.

(** The position [playNextVideo] moves to from the persisted current item
    [cur]. *)
Definition next_index (cur : Z) (vs : list Video) : Z :=
  Z.rem (findIndex cur vs + 1) (Z.of_nat (length vs)).

(** A run of process-end events, each delivered to the [close] listener of a
    primary session, with the current-item reference seen after each. *)
Fixpoint closes (events : list (string * Z)) (m : Manager) (w : World)
  : list (option Z) * Manager * World :=
  match events with
  | [] => ([], m, w)
  | (key, code) :: rest =>
      let r := on_close key code m w in
      let '(seen, m', w') := closes rest (engine_of r) (world_of r) in
      (current_item (world_of r) :: seen, m', w')
  end.

(** What consecutive advances keep: the loop is on, the snapshot is the
    ordered [videos] table. *)
Definition looping_over (vs : list Video) (m : Manager) (w : World) : Prop :=
  loopEnabled m = true ∧ Sql.videos_by_order (videos w) = vs ∧ playlist m = vs.

(** [establishes I c]: [I] holds after [c], whatever held before. *)
Definition establishes {A} (I : Manager → World → Prop) (c : M A) : Prop :=
  ∀ m w, I (engine_of (c m w)) (world_of (c m w)).

(** No start time is recorded. *)
Definition no_start_time (m : Manager) (w : World) : Prop := streamStartTime m = None.

(** The deployment on a host without [child_process]. *)
Definition world_no_runtime : World :=
  mkWorld [item_A; item_B] [] [live_row]
          {[ "uploads/a.mp4"%string; "uploads/b.mp4"%string ]}
          false true 1000 [] ∅ 0 ∅.

(** The columns of [stream_status], from its [CREATE TABLE]. *)
Definition stream_status_columns : list string :=
  [ "id"; "status"; "viewer_count"; "uptime"; "current_video_id"; "started_at";
    "loop_playlist" ]%string.

(** What a tick cannot change in a status row: everything but [uptime] and
    [viewer_count]. *)
Definition row_outside_tick (r : StatusRow) : Z * string * option Z * option Z * bool :=
  (status_id r, status r, current_video_id r, started_at r, loop_playlist r).

(** The deployment after item B was deleted from [videos] (its file too),
    with the active profile. *)
Definition world_B_deleted (w : World) : World :=
  mkWorld [item_A] (stream_configs w) (stream_status w) {[ "uploads/a.mp4"%string ]}
          (child_process w) (spawn_ok w) (clock w) (spawned w) (killed w)
          (next_timer w) (live_timers w).

(** ** The stream routes

    The handlers of [/api/stream/...], which drive the engine [rtmpManager]
    and write [stream_status].  A handler answers with a status code and a
    JSON body. *)

Inductive Body :=
| JsonError (error : string)
| JsonMessage (message : string)
| JsonRow (row : option StatusRow)
| JsonLoop (persisted inMemory : bool)
| JsonVideo (row : Video)
| JsonConfig (row : ConfigRow).

Record Response := mkResponse { res_code : Z; res_body : Body }.

(** [row.name] on a [stream_status] row as the driver returns it: the
    properties are the column names. *)
Definition status_row_prop (name : string) (r : StatusRow) : option jsval :=
  if String.eqb name "id" then Some (JNum (status_id r))
  else if String.eqb name "status" then Some (JStr (status r))
  else if String.eqb name "viewer_count" then Some (JNum (viewer_count r))
  else if String.eqb name "uptime" then Some (JStr (uptime r))
  else if String.eqb name "current_video_id" then
    Some (match current_video_id r with Some n => JNum n | None => JNull end)
  else if String.eqb name "started_at" then
    Some (match started_at r with Some t => JDate t | None => JNull end)
  else if String.eqb name "loop_playlist" then Some (JBool (loop_playlist r))
  else None.

(** Truthiness of [row?.name]. *)
Definition prop_truthy (name : string) (row : option StatusRow) : bool :=
  match row with
  | Some r =>
      match status_row_prop name r with
      | Some v => js_truthy v
      | None => false
      end
  | None => false
  end.

(** [POST /api/stream/start]. *)
Definition route_stream_start : M Response :=
  try_catch
    (let* w := world in
     let streamStatus := Sql.latest_status (stream_status w) in
     if negb (prop_truthy "current_video_id" streamStatus) then
       ret (mkResponse 400 (JsonError "No video selected for streaming"))
     else
       match streamStatus with
       | Some st =>
           match current_video_id st with
           | Some videoId =>
               match Sql.select_video videoId (videos w) with
               | [] => ret (mkResponse 400 (JsonError "Selected video not found"))
               | _ :: _ =>
                   match Sql.active_config (stream_configs w) with
                   | None =>
                       ret (mkResponse 400 (JsonError "Stream configuration not found"))
                   | Some streamConfig =>
                       setLoopEnabled (loop_playlist st) ;;;
                       let* started := startStream videoId (config_of_row streamConfig) in
                       if negb started then
                         ret (mkResponse 500 (JsonError "Failed to start RTMP stream"))
                       else
                         let* w := world in
                         db_update_latest [ ("status", JStr "live");
                                            ("started_at", JDate (clock w)) ] ;;;
                         let* w := world in
                         ret (mkResponse 200
                                (JsonRow (Sql.latest_status (stream_status w))))
                   end
               end
           | None => ret (mkResponse 400 (JsonError "No video selected for streaming"))
           end
       | None => ret (mkResponse 400 (JsonError "No video selected for streaming"))
       end)
    (λ _, ret (mkResponse 500 (JsonError "Failed to start stream"))).

(** [POST /api/stream/stop]. *)
Definition route_stream_stop : M Response :=
  try_catch
    (stopAllStreams ;;;
     setLoopEnabled false ;;;
     db_update_latest [ ("status", JStr "offline"); ("current_video_id", JNull);
                        ("started_at", JNull); ("loop_playlist", JBool false) ] ;;;
     let* w := world in
     ret (mkResponse 200 (JsonRow (Sql.latest_status (stream_status w)))))
    (λ _, ret (mkResponse 500 (JsonError "Failed to stop stream"))).

(** [POST /api/stream/set-current], with [req.body.videoId]. *)
Definition route_stream_set_current (videoId : option Z) : M Response :=
  try_catch
    (if negb (JS.truthy_num videoId) then
       ret (mkResponse 400 (JsonError "Video ID is required"))
     else
       let id := default 0 videoId in
       let* w := world in
       match Sql.select_video id (videos w) with
       | [] => ret (mkResponse 404 (JsonError "Video not found"))
       | _ :: _ =>
           db_update_latest [ ("current_video_id", JNum id) ] ;;;
           let* w := world in
           ret (mkResponse 200 (JsonRow (Sql.latest_status (stream_status w))))
       end)
    (λ _, ret (mkResponse 500 (JsonError "Failed to set current video"))).

(** The callback [POST /api/stream/restart] hands to [setTimeout]; it closes
    over the status row read by the handler.  A [NULL] id selects no video,
    and [startStream] answers [false]. *)
Definition restart_relaunch (streamStatus : StatusRow) : M unit :=
  try_catch
    (let* w := world in
     match Sql.active_config (stream_configs w) with
     | Some streamConfig =>
         let* started :=
           match current_video_id streamStatus with
           | Some videoId => startStream videoId (config_of_row streamConfig)
           | None => ret false
           end in
         if started then
           let* w := world in
           db_update_latest [ ("status", JStr "live"); ("started_at", JDate (clock w)) ]
         else ret tt
     | None => ret tt
     end)
    (λ _, db_update_latest [ ("status", JStr "error") ]).

(** [POST /api/stream/restart]: the response, and the callback it scheduled
    with [setTimeout], if any.  The guard reads [streamStatus?.currentVideoId]. *)
Definition route_stream_restart : M (Response * option (M unit)) :=
  try_catch
    (let* w := world in
     let streamStatus := Sql.latest_status (stream_status w) in
     if negb (prop_truthy "currentVideoId" streamStatus) then
       ret (mkResponse 400 (JsonError "No video selected for streaming"), None)
     else
       stopAllStreams ;;;
       db_update_latest [ ("status", JStr "offline"); ("started_at", JNull) ] ;;;
       let* w := world in
       ret (mkResponse 200 (JsonRow (Sql.latest_status (stream_status w))),
            restart_relaunch <$> streamStatus))
    (λ _, ret (mkResponse 500 (JsonError "Failed to restart stream"), None)).

(** [POST /api/stream/loop/enable] and [.../disable]: the handlers registered
    first for these paths (the later ones for the same paths are never
    reached, the first ones answer). *)
Definition route_loop_enable : M Response :=
  try_catch
    (db_update_all [ ("loop_playlist", JBool true) ] ;;;
     setLoopEnabled true ;;;
     ret (mkResponse 200 (JsonMessage "24x7 loop enabled")))
    (λ _, ret (mkResponse 500 (JsonError "Failed to enable loop"))).

Definition route_loop_disable : M Response :=
  try_catch
    (db_update_all [ ("loop_playlist", JBool false) ] ;;;
     setLoopEnabled false ;;;
     ret (mkResponse 200 (JsonMessage "24x7 loop disabled")))
    (λ _, ret (mkResponse 500 (JsonError "Failed to disable loop"))).

(** [GET /api/stream/loop/status]. *)
Definition route_loop_status : M Response :=
  try_catch
    (let* w := world in
     let loopEnabled := prop_truthy "loop_playlist" (Sql.latest_status (stream_status w)) in
     let* rtmpLoopEnabled := isLoopEnabled in
     ret (mkResponse 200 (JsonLoop loopEnabled rtmpLoopEnabled)))
    (λ _, ret (mkResponse 500 (JsonError "Failed to get loop status"))).

(** [SET loop_playlist = b] and the [SET] clause of the stop route, on one
    row. *)
Definition with_loop_playlist (b : bool) (r : StatusRow) : StatusRow :=
  mkStatus (status_id r) (status r) (viewer_count r) (uptime r) (current_video_id r)
           (started_at r) b.

Definition row_stopped (r : StatusRow) : StatusRow :=
  mkStatus (status_id r) "offline" (viewer_count r) (uptime r) None None false.

Definition row_live (now : Z) (r : StatusRow) : StatusRow :=
  mkStatus (status_id r) "live" (viewer_count r) (uptime r) (current_video_id r)
           (Some now) (loop_playlist r).

(** ** The routes that edit the playlist and the profile *)

Definition set_videos (x : list Video) (w : World) : World :=
  mkWorld x (stream_configs w) (stream_status w) (files w) (child_process w) (spawn_ok w)
          (clock w) (spawned w) (killed w) (next_timer w) (live_timers w).
Definition set_stream_configs (x : list ConfigRow) (w : World) : World :=
  mkWorld (videos w) x (stream_status w) (files w) (child_process w) (spawn_ok w)
          (clock w) (spawned w) (killed w) (next_timer w) (live_timers w).
Definition set_files (x : gset string) (w : World) : World :=
  mkWorld (videos w) (stream_configs w) (stream_status w) x (child_process w) (spawn_ok w)
          (clock w) (spawned w) (killed w) (next_timer w) (live_timers w).

(** [DELETE /api/videos/:id]. *)
Definition route_videos_delete (id : Z) : M Response :=
  try_catch
    (let* w := world in
     match Sql.select_video id (videos w) with
     | [] => ret (mkResponse 404 (JsonError "Video not found"))
     | video :: _ =>
         (if bool_decide (videoPath video ∈ files w)
          then effect (λ w, set_files (files w ∖ {[ videoPath video ]}) w)
          else ret tt) ;;;
         effect (λ w, set_videos (List.filter (λ v, negb (video_id v =? id)) (videos w)) w) ;;;
         ret (mkResponse 200 (JsonMessage "Video deleted successfully"))
     end)
    (λ _, ret (mkResponse 500 (JsonError "Failed to delete video"))).

(** [SELECT COALESCE(MAX(playlist_order), 0) + 1 FROM videos]. *)
Fixpoint max_playlist_order (vs : list Video) : option Z :=
  match vs with
  | [] => None
  | v :: rest =>
      match max_playlist_order rest with
      | Some m => Some (Z.max (playlist_order v) m)
      | None => Some (playlist_order v)
      end
  end.

Definition next_order (vs : list Video) : Z := default 0 (max_playlist_order vs) + 1.

(** [POST /api/videos], once the upload middleware has stored the file:
    [file] is [req.file.filename] if a file came with the request, [newId]
    the id the SERIAL column gives to the inserted row. *)
Definition route_videos_upload (newId : Z) (file : option string) (title : option string)
  : M Response :=
  try_catch
    (match file with
     | None => ret (mkResponse 400 (JsonError "No video file provided"))
     | Some filename =>
         let* w := world in
         let playlistOrder := next_order (videos w) in
         let video := mkVideo newId (JS.or_str title "Untitled Video") filename playlistOrder in
         effect (set_videos (videos w ++ [video])) ;;;
         ret (mkResponse 200 (JsonVideo video))
     end)
    (λ _, ret (mkResponse 500 (JsonError "Failed to upload video"))).

(** The body of [POST /api/stream-config]. *)
Record ConfigBody := mkConfigBody {
  body_platform : option string;
  body_streamKey : option string;
  body_rtmpUrl : option string;
  body_resolution : option string;
  body_framerate : option Z;
  body_bitrate : option Z;
  body_audioQuality : option Z
}.

(** [UPDATE stream_configs SET is_active = false] on one row. *)
Definition deactivated (c : ConfigRow) : ConfigRow :=
  mkConfigRow (cfg_id c) (cfg_platform c) (cfg_stream_key c) (cfg_rtmp_url c)
              (cfg_resolution c) (cfg_framerate c) (cfg_bitrate c) false.

(** The row of [INSERT INTO stream_configs (...) VALUES ($1, ..., $7, true)],
    or [None] when a [NOT NULL] column would get no value. *)
Definition inserted_config (newId : Z) (b : ConfigBody) : option ConfigRow :=
  match body_platform b, body_streamKey b, body_resolution b, body_framerate b,
        body_bitrate b, body_audioQuality b with
  | Some p, Some k, Some r, Some f, Some br, Some _ =>
      Some (mkConfigRow newId p k (body_rtmpUrl b) r f br true)
  | _, _, _, _, _, _ => None
  end.

(** [POST /api/stream-config]; [newId] is the id the SERIAL column gives to
    the inserted row. *)
Definition route_stream_config_save (newId : Z) (b : ConfigBody) : M Response :=
  try_catch
    (effect (λ w, set_stream_configs (List.map deactivated (stream_configs w)) w) ;;;
     match inserted_config newId b with
     | Some row =>
         effect (λ w, set_stream_configs (stream_configs w ++ [row]) w) ;;;
         ret (mkResponse 200 (JsonConfig row))
     | None => throw "null value violates not-null constraint"
     end)
    (λ _, ret (mkResponse 500 (JsonError "Failed to save stream config"))).

(** The body of [POST /api/videos/reorder]: [videoIds], [updates] (pairs of
    [id] and [playlistOrder]), or neither. *)
Inductive ReorderBody :=
| ByVideoIds (videoIds : list Z)
| ByUpdates (updates : list (Z * Z))
| NoArray.

(** [UPDATE videos SET playlist_order = $1 WHERE id = $2]. *)
Definition with_playlist_order (o : Z) (v : Video) : Video :=
  mkVideo (video_id v) (title v) (filename v) o.

Definition update_order (o id : Z) (vs : list Video) : list Video :=
  List.map (λ v, if video_id v =? id then with_playlist_order o v else v) vs.

(** The statements of [videoIds.map((id, index) => ... [index + 1, id])], in
    the order of the array; [k] is [index + 1] of the first one. *)
Fixpoint reorder_from (k : Z) (videoIds : list Z) (vs : list Video) : list Video :=
  match videoIds with
  | [] => vs
  | id :: rest => reorder_from (k + 1) rest (update_order k id vs)
  end.

(** The statements of [updates.map(update => ... [update.playlistOrder,
    update.id])]. *)
Definition reorder_by (updates : list (Z * Z)) (vs : list Video) : list Video :=
  fold_left (λ vs u, update_order u.2 u.1 vs) updates vs.

(** [POST /api/videos/reorder]. *)
Definition route_videos_reorder (b : ReorderBody) : M Response :=
  try_catch
    (match b with
     | ByVideoIds videoIds =>
         effect (λ w, set_videos (reorder_from 1 videoIds (videos w)) w) ;;;
         ret (mkResponse 200 (JsonMessage "Playlist reordered successfully"))
     | ByUpdates updates =>
         effect (λ w, set_videos (reorder_by updates (videos w)) w) ;;;
         ret (mkResponse 200 (JsonMessage "Playlist reordered successfully"))
     | NoArray =>
         ret (mkResponse 400 (JsonMessage "Either videoIds or updates array is required"))
     end)
    (λ _, ret (mkResponse 500 (JsonError "Failed to reorder playlist"))).

(** ** Basic facts *)

Example formatUptime_ex : formatUptime 3725000 = "01:02:05"%string.
Proof. vm_compute. reflexivity. Qed.

Example url_ex : getPlatformRTMPUrl (Some "YouTube"%string) None = YOUTUBE_URL.
Proof. vm_compute. reflexivity. Qed.

Example lower_ex : JS.toLowerCase "FaceBooK"%string = "facebook"%string.
Proof. vm_compute. reflexivity. Qed.


Lemma Manager_eta (m : Manager) :
  mkManager (activeStreams m) (streamConfigs m) (loopEnabled m) (uptimeInterval m)
            (streamStartTime m) (currentVideoIndex m) (playlist m) = m.
Proof. destruct m; reflexivity. Qed.

Lemma World_eta (w : World) :
  mkWorld (videos w) (stream_configs w) (stream_status w) (files w) (child_process w)
          (spawn_ok w) (clock w) (spawned w) (killed w) (next_timer w) (live_timers w) = w.
Proof. destruct w; reflexivity. Qed.

Lemma stopUptimeTracking_eq m w :
  stopUptimeTracking m w =
    (Returned tt, tracking_stopped m, interval_cleared (uptimeInterval m) w).
Proof.
  unfold stopUptimeTracking, tracking_stopped, interval_cleared,
    bind, this, effect, assign_this, ret.
  destruct m as [a c l [t|] s i p]; reflexivity.
Qed.

Lemma startUptimeTracking_eq m w :
  startUptimeTracking m w =
    (Returned tt,
     set_uptimeInterval (Some (next_timer w)) (tracking_stopped m),
     set_timers (S (next_timer w))
       ({[next_timer w]} ∪ live_timers (interval_cleared (uptimeInterval m) w))
       (interval_cleared (uptimeInterval m) w)).
Proof.
  unfold startUptimeTracking.
  unfold bind at 1. unfold world at 1.
  unfold bind at 1. unfold assign_this at 1.
  unfold bind at 1. rewrite stopUptimeTracking_eq.
  unfold bind, world, effect, assign_this, tracking_stopped, interval_cleared.
  destruct m as [a c l [t|] s i p]; reflexivity.
Qed.

(** After [startUptimeTracking] the start time is [null]: the method sets it
    and then calls [stopUptimeTracking], which resets it. *)
Lemma startUptimeTracking_start_time m w :
  streamStartTime (engine_of (startUptimeTracking m w)) = None.
Proof. rewrite startUptimeTracking_eq. reflexivity. Qed.

(** *** The dynamic status update *)

(** The spread copies the camel-case keys of [additionalData] into the update
    object, after the six column keys. *)
Lemma updateData_close now :
  updateData now "offline" JNull close_data =
    [ ("status", JStr "offline"); ("current_video_id", JNull); ("started_at", JNull);
      ("viewer_count", JNum 0); ("uptime", JStr "00:00:00"); ("loop_playlist", JBool false);
      ("viewerCount", JNum 0); ("loopPlaylist", JBool false) ].
Proof. reflexivity. Qed.

Lemma updateData_error now message :
  updateData now "error" JNull (error_data message) =
    [ ("status", JStr "error"); ("current_video_id", JNull); ("started_at", JNull);
      ("viewer_count", JNum 0); ("uptime", JStr "00:00:00"); ("loop_playlist", JBool false);
      ("viewerCount", JNum 0); ("loopPlaylist", JBool false);
      ("errorMessage", JStr message) ].
Proof. reflexivity. Qed.

(** [stream_status] has no column [viewercount]: the statement built from
    such an object is rejected. *)
Lemma assign_viewerCount v : Sql.assign "viewerCount" v = None.
Proof. reflexivity. Qed.

Lemma assign_all_close now :
  Sql.assign_all (updateData now "offline" JNull close_data) = None.
Proof. reflexivity. Qed.

Lemma assign_all_error now message :
  Sql.assign_all (updateData now "error" JNull (error_data message)) = None.
Proof. reflexivity. Qed.

(** A rejected statement is caught inside [updateStreamStatus]: nothing is
    written and nothing is thrown. *)
Lemma updateStreamStatus_rejected st videoId data m w :
  Sql.assign_all (updateData (clock w) st videoId data) = None →
  updateStreamStatus st videoId data m w = (Returned tt, m, w).
Proof.
  intros H.
  unfold updateStreamStatus, try_catch, bind, world, db_update_latest, Sql.update_latest.
  rewrite H. reflexivity.
Qed.

(** With an [additionalData] whose keys are columns the same method does
    write. *)
Lemma updateStreamStatus_accepted st videoId data f m w :
  Sql.assign_all (updateData (clock w) st videoId data) = Some f →
  updateStreamStatus st videoId data m w =
    (Returned tt, m,
     set_stream_status
       (match Sql.max_id (stream_status w) with
        | Some i => List.map (λ r, if status_id r =? i then f r else r) (stream_status w)
        | None => stream_status w
        end) w).
Proof.
  intros H.
  unfold updateStreamStatus, try_catch, bind, world, db_update_latest, Sql.update_latest,
    effect.
  rewrite H. reflexivity.
Qed.

(** With the default [additionalData = {}] the update object has the six
    column keys only, and the statement goes through. *)
Example updateStreamStatus_default_data :
  stream_status (world_of (updateStreamStatus "offline" JNull [] constructor (world_AB [])))
  = [mkStatus 1 "offline" 0 "00:00:00" None None false].
Proof. vm_compute. reflexivity. Qed.

(** *** The listeners, step by step *)

Lemma on_close_loop_enabled streamKey code m w :
  loopEnabled m = true →
  on_close streamKey code m w = playNextVideo (entry_deleted streamKey m) w.
Proof.
  intros H. unfold on_close, bind at 1, assign_this at 1, bind at 1, this at 1.
  fold (entry_deleted streamKey m).
  replace (loopEnabled (entry_deleted streamKey m)) with true by (symmetry; exact H).
  reflexivity.
Qed.

Lemma on_close_loop_disabled streamKey code m w :
  loopEnabled m = false →
  on_close streamKey code m w =
    (Returned tt, tracking_stopped (entry_deleted streamKey m),
     interval_cleared (uptimeInterval m) w).
Proof.
  intros H. unfold on_close, bind at 1, assign_this at 1, bind at 1, this at 1.
  fold (entry_deleted streamKey m).
  replace (loopEnabled (entry_deleted streamKey m)) with false by (symmetry; exact H).
  unfold bind. rewrite stopUptimeTracking_eq.
  fold close_data.
  rewrite updateStreamStatus_rejected by apply assign_all_close.
  reflexivity.
Qed.

Lemma on_error_eq streamKey message m w :
  on_error streamKey message m w =
    (Returned tt, tracking_stopped (entry_deleted streamKey m),
     interval_cleared (uptimeInterval m) w).
Proof.
  unfold on_error, bind, assign_this.
  fold (entry_deleted streamKey m).
  rewrite stopUptimeTracking_eq.
  fold (error_data message).
  rewrite updateStreamStatus_rejected by apply assign_all_error.
  reflexivity.
Qed.

Lemma stream_status_interval_cleared t w :
  stream_status (interval_cleared t w) = stream_status w.
Proof. destruct t; reflexivity. Qed.

Arguments stopUptimeTracking : simpl never.
Arguments startUptimeTracking : simpl never.
Arguments updateStreamStatus : simpl never.

Lemma loadPlaylist_eq m w :
  loadPlaylist m w = (Returned tt, set_playlist (Sql.videos_by_order (videos w)) m, w).
Proof. reflexivity. Qed.

(** ** Stopping *)

Lemma video_key_truthy videoId : JS.truthy_str (Some (video_key videoId)) = true.
Proof. reflexivity. Qed.

Lemma multistream_key_truthy videoId :
  JS.truthy_str (Some (multistream_key videoId)) = true.
Proof. reflexivity. Qed.

Lemma stopStream_key_eq key m w :
  JS.truthy_str (Some key) = true →
  stopStream (Some key) m w = (Returned true, one_stopped key m, one_signalled key m w).
Proof.
  intros Hk. unfold stopStream, try_catch.
  unfold bind at 1, this at 1. rewrite Hk. cbn [from_option id].
  unfold one_stopped, one_signalled.
  destruct (activeStreams m !! key) as [[|pid]|];
    unfold bind, kill, effect, assign_this, ret; cbn;
    rewrite stopUptimeTracking_eq; reflexivity.
Qed.

Lemma stopStream_all_eq key m w :
  JS.truthy_str key = false →
  stopStream key m w = (Returned true, all_stopped m, all_signalled m w).
Proof.
  intros Hk. unfold stopStream, try_catch.
  unfold bind at 1, this at 1. rewrite Hk.
  unfold bind, kill_all, effect, assign_this, ret; cbn.
  rewrite stopUptimeTracking_eq. reflexivity.
Qed.

Lemma stopAllStreams_eq m w :
  stopAllStreams m w = (Returned true, all_stopped m, all_signalled m w).
Proof. apply stopStream_all_eq. reflexivity. Qed.

(** ** Invariants *)

Section Stable.
Context {A B : Type} (I : Manager → World → Prop).

Lemma stable_ret (a : A) : stable I (ret a).
Proof. intros m w H. exact H. Qed.

Lemma stable_throw (e : string) : stable I (@throw A e).
Proof. intros m w H. exact H. Qed.

Lemma stable_bind (c : M A) (k : A → M B) :
  stable I c → (∀ a, stable I (k a)) → stable I (bind c k).
Proof.
  intros Hc Hk m w H. unfold bind, engine_of, world_of.
  specialize (Hc m w H). unfold engine_of, world_of in Hc.
  destruct (c m w) as [[[a|e] m'] w']; simpl in *.
  - apply (Hk a m' w' Hc).
  - exact Hc.
Qed.

Lemma stable_try_catch (c : M A) (h : string → M A) :
  stable I c → (∀ e, stable I (h e)) → stable I (try_catch c h).
Proof.
  intros Hc Hh m w H. unfold try_catch, engine_of, world_of.
  specialize (Hc m w H). unfold engine_of, world_of in Hc.
  destruct (c m w) as [[[a|e] m'] w']; simpl in *.
  - exact Hc.
  - apply (Hh e m' w' Hc).
Qed.
End Stable.

Lemma stable_this I : stable I this.
Proof. intros m w H. exact H. Qed.

Lemma stable_world I : stable I world.
Proof. intros m w H. exact H. Qed.

Lemma stable_assign_this I f :
  (∀ m w, I m w → I (f m) w) → stable I (assign_this f).
Proof. intros Hf m w H. apply Hf, H. Qed.

Lemma stable_effect I f :
  (∀ m w, I m w → I m (f w)) → stable I (effect f).
Proof. intros Hf m w H. apply Hf, H. Qed.

(** One step of a proof that a method keeps an invariant: split sequencing
    and handlers, case on the conditions. *)
Ltac stable_step :=
  lazymatch goal with
  | |- stable _ (bind _ _) => apply stable_bind; [| intros ?; cbv beta]
  | |- stable _ (try_catch _ _) => apply stable_try_catch; [| intros ?; cbv beta]
  | |- stable _ (ret _) => apply stable_ret
  | |- stable _ (throw _) => apply stable_throw
  | |- stable _ this => apply stable_this
  | |- stable _ world => apply stable_world
  | |- stable _ (assign_this _) => apply stable_assign_this; intros ? ? ?
  | |- stable _ (effect _) => apply stable_effect; intros ? ? ?
  | |- stable _ (match ?x with _ => _ end) => destruct x
  end.

Section Frame.
Variable I : Manager → World → Prop.
Hypothesis HI : frame I.

Lemma stopUptimeTracking_stable : stable I stopUptimeTracking.
Proof.
  unfold stopUptimeTracking. repeat stable_step.
  - by apply frame_timers.
  - by apply frame_interval.
  - by apply frame_start.
Qed.

Lemma startUptimeTracking_stable : stable I startUptimeTracking.
Proof.
  unfold startUptimeTracking. repeat stable_step.
  - by apply frame_start.
  - apply stopUptimeTracking_stable.
  - by apply frame_timers.
  - by apply frame_interval.
Qed.

Lemma stopStream_stable key : stable I (stopStream key).
Proof.
  unfold stopStream, kill, kill_all. repeat stable_step.
  all: try apply stopUptimeTracking_stable.
  all: first [ by apply frame_killed | by apply frame_streams ].
Qed.

Lemma loadPlaylist_stable : stable I loadPlaylist.
Proof.
  intros m w H. rewrite loadPlaylist_eq. by apply frame_playlist.
Qed.
End Frame.

Section FrameStart.
Variable I : Manager → World → Prop.
Hypothesis HI : frame I.

Lemma spawn_stable args : stable I (spawn args).
Proof.
  unfold spawn. repeat stable_step. by apply frame_spawned.
Qed.

Lemma startStream_stable videoId config : stable I (startStream videoId config).
Proof.
  unfold startStream. repeat stable_step.
  all: try apply stopStream_stable; try apply startUptimeTracking_stable;
    try apply loadPlaylist_stable; try apply spawn_stable; try exact HI.
  all: first [ by apply frame_streams | by apply frame_configs | by apply frame_start ].
Qed.

Lemma streamToMultiplePlatforms_stable videoId platforms :
  stable I (streamToMultiplePlatforms videoId platforms).
Proof.
  unfold streamToMultiplePlatforms. repeat stable_step.
  all: try apply stopStream_stable; try apply spawn_stable; try exact HI.
  all: by apply frame_streams.
Qed.

Lemma multi_on_close_stable key code : stable I (multi_on_close key code).
Proof. unfold multi_on_close. stable_step. by apply frame_streams. Qed.

Lemma multi_on_error_stable key message : stable I (multi_on_error key message).
Proof. unfold multi_on_error. stable_step. by apply frame_streams. Qed.
End FrameStart.

(** ** The statement sent by the advancer *)

Lemma db_update_all_current n m w :
  db_update_all [("current_video_id", JNum n)] m w =
    (Returned tt, m,
     set_stream_status (List.map (with_current_video (Some n)) (stream_status w)) w).
Proof. reflexivity. Qed.

Lemma db_update_latest_uptime u v m w :
  db_update_latest [("uptime", JStr u); ("viewer_count", JNum v)] m w =
    (Returned tt, m,
     set_stream_status
       (match Sql.max_id (stream_status w) with
        | Some i =>
            List.map (λ r, if status_id r =? i then with_uptime_viewers u v r else r)
                     (stream_status w)
        | None => stream_status w
        end) w).
Proof. reflexivity. Qed.

Arguments db_update_all : simpl never.
Arguments db_update_latest : simpl never.

Section FrameAdvance.
Variable I : Manager → World → Prop.
Hypothesis HI : frame I.
Hypothesis Hcursor : ∀ x m w, I m w → I (set_currentVideoIndex x m) w.
Hypothesis Hcurrent :
  ∀ n m w, I m w →
    I m (set_stream_status (List.map (with_current_video (Some n)) (stream_status w)) w).

Lemma playNextVideo_stable : stable I playNextVideo.
Proof.
  unfold playNextVideo. repeat stable_step.
  all: try apply startStream_stable; try exact HI.
  all: try (by apply Hcursor).
  intros m1 w1 H1. rewrite db_update_all_current. by apply Hcurrent.
Qed.

Lemma on_error_stable key message : stable I (on_error key message).
Proof.
  intros m w H. rewrite on_error_eq. unfold engine_of, world_of; cbn.
  unfold tracking_stopped, entry_deleted, interval_cleared.
  apply frame_start, frame_interval, frame_streams; try exact HI.
  destruct (uptimeInterval m); [by apply frame_timers | exact H].
Qed.

Lemma on_close_stable key code : stable I (on_close key code).
Proof.
  intros m w H. destruct (loopEnabled m) eqn:E.
  - rewrite on_close_loop_enabled by exact E.
    apply playNextVideo_stable. by apply frame_streams.
  - rewrite on_close_loop_disabled by exact E. unfold engine_of, world_of; cbn.
    unfold tracking_stopped, entry_deleted, interval_cleared.
    apply frame_start, frame_interval, frame_streams; try exact HI.
    destruct (uptimeInterval m); [by apply frame_timers | exact H].
Qed.
End FrameAdvance.

Section FrameRun.
Variable I : Manager → World → Prop.
Hypothesis HI : frame I.
Hypothesis HS : frame_status I.

Lemma updateStreamStatus_stable st videoId data :
  stable I (updateStreamStatus st videoId data).
Proof.
  intros m w H.
  destruct (Sql.assign_all (updateData (clock w) st videoId data)) as [f|] eqn:E.
  - rewrite (updateStreamStatus_accepted _ _ _ f) by exact E.
    by apply frame_rows.
  - rewrite updateStreamStatus_rejected by exact E. exact H.
Qed.

Lemma uptime_tick_stable floor100 : stable I (uptime_tick floor100).
Proof.
  unfold uptime_tick. repeat stable_step.
  intros m1 w1 H1. rewrite db_update_latest_uptime. by apply frame_rows.
Qed.

(** Every call and event other than [setLoopEnabled] keeps such a
    property. *)
Lemma run_stable c : is_SetLoopEnabled c = false → stable I (run c).
Proof.
  destruct c; cbn [run is_SetLoopEnabled]; intros Hc; try discriminate.
  all: unfold stopAllStreams, isLoopEnabled, isStreaming; repeat stable_step.
  - by apply startStream_stable.
  - by apply stopStream_stable.
  - by apply stopStream_stable.
  - by apply loadPlaylist_stable.
  - apply playNextVideo_stable; [exact HI | apply (frame_cursor _ HS) |].
    intros; by apply frame_rows.
  - by apply streamToMultiplePlatforms_stable.
  - by apply startUptimeTracking_stable.
  - by apply stopUptimeTracking_stable.
  - apply updateStreamStatus_stable.
  - apply on_close_stable; [exact HI | apply (frame_cursor _ HS) |].
    intros; by apply frame_rows.
  - apply on_error_stable; exact HI.
  - by apply multi_on_close_stable.
  - by apply multi_on_error_stable.
  - apply uptime_tick_stable.
Qed.
End FrameRun.

(** ** The loop flag *)

Lemma frame_loopEnabled b : frame (λ m _, loopEnabled m = b).
Proof. by constructor. Qed.

Lemma frame_status_loopEnabled b : frame_status (λ m _, loopEnabled m = b).
Proof. by constructor. Qed.

Lemma frame_persisted_loop_flags L : frame (λ _ w, persisted_loop_flags w = L).
Proof. by constructor. Qed.

Lemma frame_persisted_states L : frame (λ _ w, persisted_states w = L).
Proof. by constructor. Qed.

Lemma persisted_loop_flags_current n w :
  persisted_loop_flags
    (set_stream_status (List.map (with_current_video n) (stream_status w)) w)
  = persisted_loop_flags w.
Proof.
  unfold persisted_loop_flags. cbn.
  induction (stream_status w) as [|r rows IH]; [reflexivity|].
  cbn. f_equal. exact IH.
Qed.

Lemma persisted_states_current n w :
  persisted_states
    (set_stream_status (List.map (with_current_video n) (stream_status w)) w)
  = persisted_states w.
Proof.
  unfold persisted_states. cbn.
  induction (stream_status w) as [|r rows IH]; [reflexivity|].
  cbn. f_equal. exact IH.
Qed.

Lemma playNextVideo_persisted_loop_flags m w :
  persisted_loop_flags (world_of (playNextVideo m w)) = persisted_loop_flags w.
Proof.
  apply (playNextVideo_stable (λ _ w', persisted_loop_flags w' = persisted_loop_flags w)).
  - apply frame_persisted_loop_flags.
  - intros ? ? ? H; exact H.
  - intros n m1 w1 H. rewrite persisted_loop_flags_current. exact H.
  - reflexivity.
Qed.

Lemma playNextVideo_persisted_states m w :
  persisted_states (world_of (playNextVideo m w)) = persisted_states w.
Proof.
  apply (playNextVideo_stable (λ _ w', persisted_states w' = persisted_states w)).
  - apply frame_persisted_states.
  - intros ? ? ? H; exact H.
  - intros n m1 w1 H. rewrite persisted_states_current. exact H.
  - reflexivity.
Qed.

Lemma persisted_loop_flags_interval_cleared t w :
  persisted_loop_flags (interval_cleared t w) = persisted_loop_flags w.
Proof. destruct t; reflexivity. Qed.

(** C3.  The loop flag is [false] in a new engine; [setLoopEnabled] sets it to
    its argument; no other call or event (stop-all included) changes it; the
    [close] and [error] listeners leave the in-memory flag and the persisted
    [loop_playlist] of every status row as they were. *)
Theorem loop_flag_changes_only_by_setLoopEnabled :
  loopEnabled constructor = false ∧
  (∀ enabled m w, loopEnabled (engine_of (setLoopEnabled enabled m w)) = enabled) ∧
  (∀ c m w, is_SetLoopEnabled c = false →
     loopEnabled (engine_of (run c m w)) = loopEnabled m) ∧
  (∀ key code m w,
     loopEnabled (engine_of (on_close key code m w)) = loopEnabled m ∧
     persisted_loop_flags (world_of (on_close key code m w)) = persisted_loop_flags w) ∧
  (∀ key message m w,
     loopEnabled (engine_of (on_error key message m w)) = loopEnabled m ∧
     persisted_loop_flags (world_of (on_error key message m w)) = persisted_loop_flags w).
Proof.
  split; [reflexivity|]. split; [reflexivity|]. split; [|split].
  - intros c m w Hc.
    apply (run_stable (λ m' _, loopEnabled m' = loopEnabled m)
             (frame_loopEnabled _) (frame_status_loopEnabled _) c Hc m w).
    reflexivity.
  - intros key code m w. split.
    + apply (run_stable (λ m' _, loopEnabled m' = loopEnabled m)
               (frame_loopEnabled _) (frame_status_loopEnabled _) (Close key code) eq_refl m w).
      reflexivity.
    + destruct (loopEnabled m) eqn:E.
      * rewrite on_close_loop_enabled by exact E.
        apply playNextVideo_persisted_loop_flags.
      * rewrite on_close_loop_disabled by exact E.
        apply persisted_loop_flags_interval_cleared.
  - intros key message m w. rewrite on_error_eq. split; [reflexivity|].
    apply persisted_loop_flags_interval_cleared.
Qed.

Lemma loop_flag_changes_only_by_setLoopEnabled_witness :
  is_SetLoopEnabled StopAllStreams = false ∧
  loopEnabled (engine_of (run StopAllStreams (engine_of (looping_A [row_abc]))
                                             (world_of (looping_A [row_abc])))) = true.
Proof.
  split; [reflexivity|].
  destruct loop_flag_changes_only_by_setLoopEnabled as (_ & _ & H & _).
  rewrite H; [|reflexivity]. vm_compute. reflexivity.
Defined.

(** ** End of a primary session *)

(** C1.  The [close] listener deletes the registry entry and then looks at the
    loop flag as it is now.  Flag set: the rest is [playNextVideo], which
    leaves the persisted [status] of every row alone.  Flag clear: uptime
    tracking is stopped, and the statement meant to persist [offline] names
    the columns [viewerCount] and [loopPlaylist], which [stream_status] does
    not have, so it is rejected and the rows stay as they were. *)
Theorem on_close_by_loop_flag key code m w :
  (loopEnabled m = true →
     on_close key code m w = playNextVideo (entry_deleted key m) w ∧
     persisted_states (world_of (on_close key code m w)) = persisted_states w) ∧
  (loopEnabled m = false →
     engine_of (on_close key code m w) = tracking_stopped (entry_deleted key m) ∧
     world_of (on_close key code m w) = interval_cleared (uptimeInterval m) w ∧
     stream_status (world_of (on_close key code m w)) = stream_status w).
Proof.
  split; intros E.
  - rewrite on_close_loop_enabled by exact E. split; [reflexivity|].
    apply playNextVideo_persisted_states.
  - rewrite on_close_loop_disabled by exact E.
    repeat split. apply stream_status_interval_cleared.
Qed.

Lemma on_close_by_loop_flag_witness :
  loopEnabled (engine_of (streaming_A [row_abc])) = false ∧
  stream_status
    (world_of (on_close "video_1" 0 (engine_of (streaming_A [row_abc]))
                                    (world_of (streaming_A [row_abc]))))
  = [live_row].
Proof.
  split; [vm_compute; reflexivity|].
  destruct (on_close_by_loop_flag "video_1" 0 (engine_of (streaming_A [row_abc]))
              (world_of (streaming_A [row_abc]))) as [_ H].
  destruct H as (_ & _ & H); [vm_compute; reflexivity|].
  rewrite H. vm_compute. reflexivity.
Defined.

(** C5.  The [error] listener, whatever the loop flag: the registry entry is
    deleted, uptime tracking is stopped, the advancer is not called (cursor,
    playlist and processes are as before); the statement meant to persist
    [error] and the message names the columns [viewerCount], [loopPlaylist]
    and [errorMessage], is rejected, and the rows stay as they were. *)
Theorem on_error_whatever_the_loop_flag key message m w :
  on_error key message m w =
    (Returned tt, tracking_stopped (entry_deleted key m),
     interval_cleared (uptimeInterval m) w) ∧
  stream_status (world_of (on_error key message m w)) = stream_status w ∧
  spawned (world_of (on_error key message m w)) = spawned w.
Proof.
  rewrite on_error_eq. split; [reflexivity|]. unfold world_of; cbn.
  destruct (uptimeInterval m); split; reflexivity.
Qed.

(** On the small deployment: A is live, its process reports an error, and the
    persisted row still says [live]. *)
Example on_error_row_still_live :
  stream_status
    (world_of (on_error "video_1" "spawn ffmpeg ENOENT"
                 (engine_of (streaming_A [row_abc])) (world_of (streaming_A [row_abc]))))
  = [live_row].
Proof. vm_compute. reflexivity. Qed.

(** ** End of a multi-destination session *)

Lemma multistream_key_not_video_key id id' : multistream_key id ≠ video_key id'.
Proof. unfold multistream_key, video_key. cbn. discriminate. Qed.

(** C10.  The [close] and [error] listeners of a multi-destination process
    delete the entry of their key and do nothing else, whatever the loop flag:
    the other fields of the engine and the whole world (tables, processes,
    timers) are as before, and no entry of a primary session is touched. *)
Theorem multi_listeners_only_delete key code message m w :
  multi_on_close key code m w = (Returned tt, entry_deleted key m, w) ∧
  multi_on_error key message m w = (Returned tt, entry_deleted key m, w) ∧
  activeStreams (entry_deleted key m) = delete key (activeStreams m) ∧
  streamConfigs (entry_deleted key m) = streamConfigs m ∧
  loopEnabled (entry_deleted key m) = loopEnabled m ∧
  uptimeInterval (entry_deleted key m) = uptimeInterval m ∧
  streamStartTime (entry_deleted key m) = streamStartTime m ∧
  currentVideoIndex (entry_deleted key m) = currentVideoIndex m ∧
  playlist (entry_deleted key m) = playlist m ∧
  (∀ id id', activeStreams (entry_deleted (multistream_key id) m) !! video_key id'
             = activeStreams m !! video_key id').
Proof.
  repeat split. intros id id'. cbn.
  apply lookup_delete_ne, multistream_key_not_video_key.
Qed.

(** ** Destination *)

Lemma or_str_cases (o : option string) (d : string) :
  (∀ s, o = Some s → s ≠ ""%string → JS.or_str o d = s) ∧
  (o = None ∨ o = Some ""%string → JS.or_str o d = d).
Proof.
  split.
  - intros s -> Hs. unfold JS.or_str.
    destruct (String.eqb_spec s ""); [contradiction | reflexivity].
  - intros [-> | ->]; reflexivity.
Qed.

Lemma buildFFmpegArgs_last inputPath outputUrl config :
  last (buildFFmpegArgs inputPath outputUrl config) = Some outputUrl.
Proof.
  unfold buildFFmpegArgs, scale_args, video_args, audio_args.
  destruct (resolution config) as [r|]; [|reflexivity].
  destruct (negb (String.eqb r "") && negb (String.eqb r "original"))%bool; reflexivity.
Qed.

(** C6 as stated fails: another platform name with a custom URL goes to the
    custom URL, not to YouTube, and [custom] with an empty custom URL goes to
    the local endpoint. *)
Lemma getPlatformRTMPUrl_not_the_stated_table :
  getPlatformRTMPUrl (Some "vimeo"%string) (Some "rtmp://example.com/live"%string)
    = "rtmp://example.com/live"%string ∧
  getPlatformRTMPUrl (Some "vimeo"%string) (Some "rtmp://example.com/live"%string)
    ≠ YOUTUBE_URL ∧
  getPlatformRTMPUrl (Some "custom"%string) (Some ""%string) = LOCAL_URL ∧
  getPlatformRTMPUrl (Some "custom"%string) (Some ""%string) ≠ ""%string.
Proof. repeat split; vm_compute; discriminate. Qed.

(** C6, amended.  The platform name is compared in lower case.  [youtube],
    [twitch], [facebook] give their fixed endpoints; [custom] gives the
    custom URL when it is a non-empty string and the local endpoint
    otherwise; any other name, or none, gives the custom URL when it is a
    non-empty string and the YouTube endpoint otherwise.  The destination is
    [<url>/<key>], the last argument of the transcoder. *)
Theorem destination_of_profile pf customUrl :
  let p := JS.toLowerCase <$> pf in
  (p = Some "youtube"%string → getPlatformRTMPUrl pf customUrl = YOUTUBE_URL) ∧
  (p = Some "twitch"%string → getPlatformRTMPUrl pf customUrl = TWITCH_URL) ∧
  (p = Some "facebook"%string → getPlatformRTMPUrl pf customUrl = FACEBOOK_URL) ∧
  (p = Some "custom"%string →
     (∀ s, customUrl = Some s → s ≠ ""%string → getPlatformRTMPUrl pf customUrl = s) ∧
     (customUrl = None ∨ customUrl = Some ""%string →
        getPlatformRTMPUrl pf customUrl = LOCAL_URL)) ∧
  ((∀ q, p = Some q → q ∉ known_platforms) →
     (∀ s, customUrl = Some s → s ≠ ""%string → getPlatformRTMPUrl pf customUrl = s) ∧
     (customUrl = None ∨ customUrl = Some ""%string →
        getPlatformRTMPUrl pf customUrl = YOUTUBE_URL)) ∧
  (∀ config,
     fullRtmpUrl config =
       getPlatformRTMPUrl (platform config) (rtmpUrl config) +:+ "/" +:+ streamKey config) ∧
  (∀ inputPath config,
     last (buildFFmpegArgs inputPath (fullRtmpUrl config) config) = Some (fullRtmpUrl config)).
Proof.
  cbn zeta. unfold getPlatformRTMPUrl.
  split; [|split; [|split; [|split; [|split; [|split]]]]].
  - intros ->. reflexivity.
  - intros ->. reflexivity.
  - intros ->. reflexivity.
  - intros ->. cbn. apply or_str_cases.
  - intros H. destruct (JS.toLowerCase <$> pf) as [q|]; [|apply or_str_cases].
    specialize (H q eq_refl). unfold known_platforms in H.
    repeat match goal with
           | |- context [String.eqb q ?s] =>
               destruct (String.eqb_spec q s) as [->|_]; [exfalso; apply H, list_elem_of_In; cbn; tauto|]
           end.
    apply or_str_cases.
  - reflexivity.
  - intros. apply buildFFmpegArgs_last.
Qed.

Lemma destination_of_profile_witness :
  JS.toLowerCase <$> Some "Custom"%string = Some "custom"%string ∧
  getPlatformRTMPUrl (Some "Custom"%string) (Some "rtmp://example.com/live"%string)
    = "rtmp://example.com/live"%string ∧
  getPlatformRTMPUrl (Some "vimeo"%string) None = YOUTUBE_URL.
Proof.
  split; [reflexivity|]. split.
  - destruct (destination_of_profile (Some "Custom"%string)
                (Some "rtmp://example.com/live"%string)) as (_ & _ & _ & H & _).
    destruct (H eq_refl) as [H1 _]. apply H1; [reflexivity | discriminate].
  - destruct (destination_of_profile (Some "vimeo"%string) None) as (_ & _ & _ & _ & H & _).
    destruct H as [_ H2].
    + intros q [= <-] Hin. apply list_elem_of_In in Hin. cbn in Hin.
      intuition discriminate.
    + apply H2. left. reflexivity.
Defined.

(** ** Resolution *)

(** C7 as stated fails: an empty resolution is not [original], and no scale
    filter is added. *)
Lemma buildFFmpegArgs_empty_resolution_no_scale :
  resolution (mkConfig (Some "youtube"%string) "abc" None (Some ""%string) (Some 30) (Some 2500))
    ≠ Some "original"%string ∧
  "-vf"%string ∉
    buildFFmpegArgs "uploads/a.mp4" "rtmp://a.rtmp.youtube.com/live2/abc"
      (mkConfig (Some "youtube"%string) "abc" None (Some ""%string) (Some 30) (Some 2500)).
Proof.
  split; [discriminate|].
  intros H. apply list_elem_of_In in H. vm_compute in H.
  repeat (destruct H as [H|H]; [discriminate H|]). exact H.
Qed.

(** C7, amended.  The height table is as stated (every other name gives 720).
    The scale filter is added, between the video and the audio arguments,
    exactly when the resolution is a non-empty string other than
    [original]. *)
Theorem resolution_table_and_scale_filter :
  getResolutionHeight "1920x1080" = 1080 ∧ getResolutionHeight "1080p" = 1080 ∧
  getResolutionHeight "1280x720" = 720 ∧ getResolutionHeight "720p" = 720 ∧
  getResolutionHeight "854x480" = 480 ∧ getResolutionHeight "480p" = 480 ∧
  getResolutionHeight "640x360" = 360 ∧ getResolutionHeight "360p" = 360 ∧
  (∀ r, r ∉ known_resolutions → getResolutionHeight r = 720) ∧
  (∀ inputPath outputUrl config r,
     resolution config = Some r → r ≠ ""%string → r ≠ "original"%string →
     buildFFmpegArgs inputPath outputUrl config =
       video_args inputPath config
       ++ ["-vf"%string; "scale=-2:" +:+ JS.toString (getResolutionHeight r)]
       ++ audio_args outputUrl) ∧
  (∀ inputPath outputUrl config,
     resolution config = None ∨ resolution config = Some ""%string
       ∨ resolution config = Some "original"%string →
     buildFFmpegArgs inputPath outputUrl config =
       video_args inputPath config ++ audio_args outputUrl).
Proof.
  repeat split.
  - intros r Hr. unfold known_resolutions in Hr. unfold getResolutionHeight.
    repeat match goal with
           | |- context [String.eqb r ?s] =>
               destruct (String.eqb_spec r s) as [->|_]; [exfalso; apply Hr, list_elem_of_In; cbn; tauto|]
           end.
    reflexivity.
  - intros inputPath outputUrl config r Hr H1 H2.
    unfold buildFFmpegArgs, scale_args. rewrite Hr.
    destruct (String.eqb_spec r ""), (String.eqb_spec r "original"); try contradiction.
    reflexivity.
  - intros inputPath outputUrl config [H | [H | H]];
      unfold buildFFmpegArgs, scale_args; rewrite H; reflexivity.
Qed.

Lemma resolution_table_and_scale_filter_witness :
  getResolutionHeight "4k" = 720 ∧
  buildFFmpegArgs "uploads/a.mp4" (fullRtmpUrl profile_abc) profile_abc =
    video_args "uploads/a.mp4" profile_abc
    ++ ["-vf"%string; "scale=-2:720"%string]
    ++ audio_args (fullRtmpUrl profile_abc) ∧
  buildFFmpegArgs "uploads/a.mp4" "rtmp://x/abc"
    (mkConfig None "abc" None (Some "original"%string) None None) =
    video_args "uploads/a.mp4" (mkConfig None "abc" None (Some "original"%string) None None)
    ++ audio_args "rtmp://x/abc".
Proof.
  destruct resolution_table_and_scale_filter as (_ & _ & _ & _ & _ & _ & _ & _ & H1 & H2 & H3).
  split; [|split].
  - apply H1. intros Hin. apply list_elem_of_In in Hin. cbn in Hin.
    intuition discriminate.
  - apply (H2 _ _ profile_abc "720p"%string); [reflexivity | discriminate | discriminate].
  - apply H3. right. right. reflexivity.
Defined.

(** ** The reconciler tick *)

Lemma iter_String_length n c s :
  String.length (Nat.iter n (String c) s) = (n + String.length s)%nat.
Proof.
  induction n as [|n IH]; [reflexivity|].
  change (Nat.iter (S n) (String c) s) with (String c (Nat.iter n (String c) s)).
  cbn [String.length]. rewrite IH. reflexivity.
Qed.

Lemma padStart_length n c s :
  String.length (JS.padStart n c s) = Nat.max n (String.length s).
Proof. unfold JS.padStart. rewrite iter_String_length. lia. Qed.

Lemma two_digits_below_100 n : 0 ≤ n < 100 → two_digits n = digit_pair n.
Proof.
  intros Hn.
  assert (Hall : forallb (λ k, String.eqb (two_digits k) (digit_pair k)) (seqZ 0 100) = true)
    by (vm_compute; reflexivity).
  rewrite forallb_forall in Hall.
  apply String.eqb_eq, Hall, list_elem_of_In, elem_of_seqZ. lia.
Qed.

Lemma uptime_fields ms :
  0 ≤ ms →
  0 ≤ uptime_hours ms ∧ 0 ≤ uptime_minutes ms < 60 ∧ 0 ≤ uptime_secs ms < 60 ∧
  uptime_hours ms * 3600 + uptime_minutes ms * 60 + uptime_secs ms = ms / 1000.
Proof.
  intros Hms. unfold uptime_hours, uptime_minutes, uptime_secs, uptime_seconds.
  Z.to_euclidean_division_equations. lia.
Qed.

Lemma uptime_tick_eq floor100 m w :
  uptime_tick floor100 m w =
    (Returned tt, m,
     match streamStartTime m, Sql.latest_status (stream_status w) with
     | Some t0, Some st =>
         if ((0 <? size (activeStreams m))%nat && String.eqb (status st) "live")%bool
         then tick_written t0 floor100 w
         else w
     | _, _ => w
     end).
Proof.
  unfold uptime_tick, bind at 1, this at 1.
  destruct (streamStartTime m) as [t0|]; [|reflexivity].
  destruct (0 <? size (activeStreams m))%nat; [|by destruct (Sql.latest_status _)].
  unfold bind, world, try_catch.
  destruct (Sql.latest_status (stream_status w)) as [st|]; [|reflexivity].
  destruct (String.eqb (status st) "live"); [|reflexivity].
  rewrite db_update_latest_uptime. reflexivity.
Qed.



(** The tick does write when its three conditions hold. *)
Lemma uptime_tick_writes floor100 m w t0 st :
  streamStartTime m = Some t0 → (0 < size (activeStreams m))%nat →
  Sql.latest_status (stream_status w) = Some st → status st = "live"%string →
  world_of (uptime_tick floor100 m w) = tick_written t0 floor100 w.
Proof.
  intros H1 H2 H3 H4. rewrite uptime_tick_eq, H1, H3, H4. unfold world_of; cbn [snd].
  change (String.eqb "live" "live") with true.
  destruct (Nat.ltb_spec 0 (size (activeStreams m))); [reflexivity | lia].
Qed.

Example uptime_tick_writes_ex :
  stream_status
    (world_of (uptime_tick 62 (set_streamStartTime (Some 0) (engine_of (streaming_A [])))
                           (world_of (streaming_A []))))
  = [mkStatus 1 "live" 62 "00:00:01" (Some 1) (Some 0) false].
Proof. vm_compute. reflexivity. Qed.

(** ** Start failures *)

Lemma bind_Returned {A B} (c : M A) (k : A → M B) m w a m' w' :
  c m w = (Returned a, m', w') → bind c k m w = k a m' w'.
Proof. intros H. unfold bind. rewrite H. reflexivity. Qed.

Lemma try_catch_returns {A} (c : M A) (b : A) m w :
  ∃ a, result_of (try_catch c (λ _, ret b) m w) = Returned a.
Proof.
  unfold try_catch, result_of. destruct (c m w) as [[[a|e] m'] w']; cbn; eauto.
Qed.

Lemma startStream_video_not_found videoId config m w :
  Sql.select_video videoId (videos w) = [] →
  startStream videoId config m w = (Returned false, m, w).
Proof.
  intros H. unfold startStream, try_catch, bind at 1, world at 1. rewrite H.
  reflexivity.
Qed.

Lemma startStream_file_not_found videoId config m w video rest :
  Sql.select_video videoId (videos w) = video :: rest →
  videoPath video ∉ files w →
  startStream videoId config m w = (Returned false, m, w).
Proof.
  intros H Hf. unfold startStream, try_catch, bind at 1, world at 1. rewrite H.
  rewrite bool_decide_eq_false_2 by exact Hf. reflexivity.
Qed.

Lemma spawn_ok_one_signalled key m w : spawn_ok (one_signalled key m w) = spawn_ok w.
Proof.
  unfold one_signalled, interval_cleared.
  destruct (uptimeInterval m), (activeStreams m !! key) as [[|pid]|]; reflexivity.
Qed.

Lemma startStream_spawn_fails videoId config m w video rest :
  Sql.select_video videoId (videos w) = video :: rest →
  videoPath video ∈ files w →
  child_process w = true → spawn_ok w = false →
  result_of (startStream videoId config m w) = Returned false.
Proof.
  intros H Hf Hc Hs. unfold startStream, try_catch, bind at 1, world at 1. rewrite H.
  rewrite bool_decide_eq_true_2 by exact Hf. cbn [negb]. rewrite Hc. cbn [negb].
  unfold bind at 1, this at 1.
  destruct (bool_decide (is_Some (activeStreams m !! video_key videoId))).
  - unfold bind at 1.
    rewrite (bind_Returned _ _ _ _ _ _ _
               (stopStream_key_eq _ m w (video_key_truthy videoId))).
    unfold ret at 1. unfold bind at 1, spawn at 1, bind at 1, world at 1.
    rewrite spawn_ok_one_signalled, Hs. reflexivity.
  - unfold bind at 1, ret at 1. unfold bind at 1, spawn at 1, bind at 1, world at 1.
    rewrite Hs. reflexivity.
Qed.



(** ** Stopping twice *)

Lemma tracking_stopped_idemp m : tracking_stopped (tracking_stopped m) = tracking_stopped m.
Proof. reflexivity. Qed.

Lemma entry_deleted_absent key m :
  activeStreams m !! key = None → entry_deleted key m = m.
Proof.
  intros H. unfold entry_deleted. rewrite delete_id by exact H.
  destruct m; reflexivity.
Qed.

Lemma set_killed_same w : set_killed (killed w) w = w.
Proof. destruct w; reflexivity. Qed.

Lemma one_stopped_twice key m : one_stopped key (one_stopped key m) = one_stopped key m.
Proof.
  unfold one_stopped, tracking_stopped, entry_deleted; cbn.
  rewrite delete_delete_eq. reflexivity.
Qed.

Lemma one_signalled_after key m w : one_signalled key (one_stopped key m) w = w.
Proof.
  unfold one_signalled, one_stopped, tracking_stopped, entry_deleted; cbn.
  rewrite lookup_delete_eq. reflexivity.
Qed.

Lemma all_signalled_after m w : all_signalled (all_stopped m) w = w.
Proof.
  unfold all_signalled, all_stopped, tracking_stopped; cbn.
  rewrite map_fold_empty. apply set_killed_same.
Qed.

Lemma stopStream_cases key m w :
  stopStream key m w =
    if JS.truthy_str key
    then (Returned true, one_stopped (default ""%string key) m,
          one_signalled (default ""%string key) m w)
    else (Returned true, all_stopped m, all_signalled m w).
Proof.
  destruct (JS.truthy_str key) eqn:E.
  - destruct key as [k|]; [|discriminate]. by apply stopStream_key_eq.
  - by apply stopStream_all_eq.
Qed.

Lemma engine_of_then_ret {A} (c : M A) m w :
  engine_of ((c ;;; ret tt) m w) = engine_of (c m w).
Proof. unfold bind, engine_of. by destruct (c m w) as [[[a|e] m'] w']. Qed.

Lemma world_of_then_ret {A} (c : M A) m w :
  world_of ((c ;;; ret tt) m w) = world_of (c m w).
Proof. unfold bind, world_of. by destruct (c m w) as [[[a|e] m'] w']. Qed.

(** The trace that leads to [idle_after_advance]. *)
Lemma idle_after_advance_reachable :
  reachable (engine_of idle_after_advance) (world_of idle_after_advance).
Proof.
  unfold idle_after_advance, looping_A, streaming_A.
  pose proof (reachable_run (StartStream 1 profile_abc) _ _
                (reachable_new (world_AB []))) as H1.
  cbn [run] in H1. rewrite engine_of_then_ret, world_of_then_ret in H1.
  pose proof (reachable_run (SetLoopEnabled true) _ _ H1) as H2.
  cbn [run] in H2.
  exact (reachable_run (Close "video_1" 0) _ _ H2).
Qed.

(** C8 as stated fails: after a looped hand-off that started nothing the
    registry is empty while the interval is still set; [stopAllStreams]
    succeeds there but changes the engine (it clears the interval). *)
Lemma stopAllStreams_empty_registry_not_a_no_op :
  activeStreams (engine_of idle_after_advance) = ∅ ∧
  uptimeInterval (engine_of idle_after_advance) = Some 0%nat ∧
  result_of (stopAllStreams (engine_of idle_after_advance) (world_of idle_after_advance))
    = Returned true ∧
  uptimeInterval
    (engine_of (stopAllStreams (engine_of idle_after_advance) (world_of idle_after_advance)))
    = None ∧
  engine_of (stopAllStreams (engine_of idle_after_advance) (world_of idle_after_advance))
    ≠ engine_of idle_after_advance.
Proof.
  assert (E : uptimeInterval (engine_of idle_after_advance) = Some 0%nat)
    by (vm_compute; reflexivity).
  split; [vm_compute; reflexivity|]. split; [exact E|].
  rewrite stopAllStreams_eq. split; [reflexivity|]. split; [reflexivity|].
  intros H. apply (f_equal uptimeInterval) in H. rewrite E in H. discriminate H.
Qed.

(** C8, amended.  [stopStream] and [stopAllStreams] return [true], and a
    second identical call changes nothing.  Stopping a key that has no entry
    leaves the registry and every other field alone except the uptime fields,
    and so does [stopAllStreams] on an empty registry: the interval is
    cleared and the start time reset.  With no interval set and no start
    time, [stopAllStreams] on an empty registry changes nothing at all. *)
Theorem stop_is_idempotent key m w :
  result_of (stopStream key m w) = Returned true ∧
  stopStream key (engine_of (stopStream key m w)) (world_of (stopStream key m w))
    = (Returned true, engine_of (stopStream key m w), world_of (stopStream key m w)) ∧
  (∀ k, key = Some k → k ≠ ""%string → activeStreams m !! k = None →
     stopStream key m w =
       (Returned true, tracking_stopped m, interval_cleared (uptimeInterval m) w)) ∧
  (activeStreams m = ∅ →
     stopAllStreams m w =
       (Returned true, tracking_stopped m, interval_cleared (uptimeInterval m) w)) ∧
  (activeStreams m = ∅ → uptimeInterval m = None → streamStartTime m = None →
     stopAllStreams m w = (Returned true, m, w)).
Proof.
  split; [|split; [|split; [|split]]].
  - rewrite stopStream_cases. by destruct (JS.truthy_str key).
  - rewrite !stopStream_cases. destruct (JS.truthy_str key); unfold engine_of, world_of; cbn [fst snd].
    + by rewrite one_stopped_twice, one_signalled_after.
    + rewrite all_signalled_after. reflexivity.
  - intros k -> Hk Hnone. rewrite stopStream_key_eq.
    + unfold one_stopped, one_signalled. rewrite Hnone.
      by rewrite entry_deleted_absent.
    + cbn. by destruct (String.eqb_spec k "").
  - intros He. rewrite stopAllStreams_eq. unfold all_stopped, all_signalled.
    rewrite He, map_fold_empty, set_killed_same. f_equal. f_equal.
    rewrite <- He. by destruct m.
  - intros He Hi Hs. rewrite stopAllStreams_eq. unfold all_stopped, all_signalled.
    rewrite He, map_fold_empty, set_killed_same, Hi. cbn.
    f_equal. f_equal. unfold tracking_stopped. destruct m; cbn in *. by subst.
Qed.

Lemma stop_is_idempotent_witness :
  activeStreams constructor !! "video_9"%string = None ∧
  stopStream (Some "video_9"%string) constructor (world_AB [])
    = (Returned true, constructor, world_AB []) ∧
  stopAllStreams constructor (world_AB []) = (Returned true, constructor, world_AB []).
Proof.
  destruct (stop_is_idempotent (Some "video_9"%string) constructor (world_AB []))
    as (_ & _ & H1 & _).
  destruct (stop_is_idempotent None constructor (world_AB [])) as (_ & _ & _ & _ & H2).
  split; [reflexivity|]. split.
  - rewrite (H1 "video_9"%string eq_refl); [reflexivity | discriminate | reflexivity].
  - apply H2; reflexivity.
Defined.

(** ** The playlist advancer *)

Lemma findIndex_spec id vs :
  (findIndex id vs = -1 ∧ id ∉ video_id <$> vs) ∨
  (∃ i v, findIndex id vs = Z.of_nat i ∧ vs !! i = Some v ∧ video_id v = id).
Proof.
  induction vs as [|v vs IH]; cbn [findIndex].
  - left. split; [reflexivity | apply not_elem_of_nil].
  - destruct (Z.eqb_spec (video_id v) id) as [E|E].
    + right. exists 0%nat, v. by repeat split.
    + destruct IH as [[-> Hn] | (i & x & -> & Hx & Hid)].
      * left. split; [reflexivity|]. rewrite fmap_cons, not_elem_of_cons.
        split; [congruence | exact Hn].
      * right. exists (S i), x.
        destruct (Z.ltb_spec (Z.of_nat i) 0); [lia|].
        split; [lia|]. by split.
Qed.

Lemma findIndex_bounds id vs : -1 ≤ findIndex id vs < Z.of_nat (length vs).
Proof.
  destruct (findIndex_spec id vs) as [[-> _] | (i & v & -> & Hv & _)]; [lia|].
  apply lookup_lt_Some in Hv. lia.
Qed.

Lemma findIndex_absent id vs : id ∉ video_id <$> vs → findIndex id vs = -1.
Proof.
  intros Hn. destruct (findIndex_spec id vs) as [[-> _] | (i & v & _ & Hv & Hid)];
    [reflexivity|].
  exfalso. apply Hn. rewrite <- Hid. apply list_elem_of_fmap_2.
  by apply list_elem_of_lookup_2 with i.
Qed.

Lemma findIndex_lookup vs i v :
  NoDup (video_id <$> vs) → vs !! i = Some v → findIndex (video_id v) vs = Z.of_nat i.
Proof.
  intros Hnd Hv.
  destruct (findIndex_spec (video_id v) vs) as [[_ Hn] | (j & x & -> & Hx & Hid)].
  - exfalso. apply Hn, list_elem_of_fmap_2. by apply list_elem_of_lookup_2 with i.
  - f_equal. apply (NoDup_lookup (video_id <$> vs) j i (video_id v) Hnd).
    + by rewrite list_lookup_fmap, Hx, <- Hid.
    + by rewrite list_lookup_fmap, Hv.
Qed.

Lemma next_index_bounds cur vs :
  vs ≠ [] → 0 ≤ next_index cur vs < Z.of_nat (length vs).
Proof.
  intros Hne. unfold next_index.
  pose proof (findIndex_bounds cur vs) as Hb.
  assert (0 < Z.of_nat (length vs)) by (destruct vs; [done | cbn; lia]).
  rewrite Z.rem_mod_nonneg by lia. apply Z.mod_pos_bound. lia.
Qed.

Lemma playlist_at_next cur vs :
  vs ≠ [] → ∃ next, playlist_at vs (next_index cur vs) = Some next.
Proof.
  intros Hne. pose proof (next_index_bounds cur vs Hne) as Hb.
  unfold playlist_at. destruct (Z.ltb_spec (next_index cur vs) 0); [lia|].
  apply lookup_lt_is_Some. lia.
Qed.

(** *** The latest row under an update of other columns *)

Lemma max_id_map f rows :
  (∀ r, status_id (f r) = status_id r) →
  Sql.max_id (List.map f rows) = Sql.max_id rows.
Proof.
  intros Hf. induction rows as [|r rows IH]; [reflexivity|].
  cbn. rewrite IH, Hf. reflexivity.
Qed.

Lemma latest_status_map f rows :
  (∀ r, status_id (f r) = status_id r) →
  Sql.latest_status (List.map f rows) = f <$> Sql.latest_status rows.
Proof.
  intros Hf. unfold Sql.latest_status. rewrite max_id_map by exact Hf.
  destruct (Sql.max_id rows) as [i|]; [|reflexivity].
  induction rows as [|r rows IH]; [reflexivity|].
  cbn. rewrite Hf. destruct (status_id r =? i); [reflexivity | exact IH].
Qed.

Lemma current_item_updated n w st :
  Sql.latest_status (stream_status w) = Some st →
  current_item
    (set_stream_status (List.map (with_current_video n) (stream_status w)) w) = n.
Proof.
  intros H. unfold current_item. cbn.
  rewrite latest_status_map by reflexivity. rewrite H. reflexivity.
Qed.

(** *** One advance *)

Lemma try_catch_bind_Returned {A B} (c : M A) (k : A → M B) h m w a m' w' :
  c m w = (Returned a, m', w') →
  try_catch (bind c k) h m w = try_catch (k a) h m' w'.
Proof. intros H. unfold try_catch, bind. rewrite H. reflexivity. Qed.

Lemma playNextVideo_guard m w :
  (negb (loopEnabled m) || (length (playlist m) =? 0)%nat)%bool = true →
  playNextVideo m w = (Returned tt, m, w).
Proof.
  intros H. unfold playNextVideo, bind at 1, this at 1. rewrite H. reflexivity.
Qed.

Lemma playNextVideo_step m w st cur next :
  loopEnabled m = true → playlist m ≠ [] →
  Sql.latest_status (stream_status w) = Some st →
  current_video_id st = Some cur → cur ≠ 0 →
  playlist_at (playlist m) (next_index cur (playlist m)) = Some next →
  playNextVideo m w =
    try_catch (start_next next) (λ _, ret tt)
      (set_currentVideoIndex (next_index cur (playlist m)) m)
      (set_stream_status
         (List.map (with_current_video (Some (video_id next))) (stream_status w)) w).
Proof.
  intros Hloop Hne Hst Hcur Hnz Hnext.
  assert (Hlen : (length (playlist m) =? 0)%nat = false).
  { destruct (playlist m); [contradiction | reflexivity]. }
  unfold playNextVideo, bind at 1, this at 1. rewrite Hloop, Hlen. cbn [negb orb].
  unfold try_catch at 1, bind at 1, world at 1. rewrite Hst, Hcur.
  assert (Ht : JS.truthy_num (Some cur) = true).
  { cbn. by destruct (Z.eqb_spec cur 0). }
  rewrite Ht. cbn [from_option id].
  unfold bind at 1, bind at 1, assign_this at 1.
  unfold bind at 1, assign_this at 1.
  unfold bind at 1, this at 1.
  cbn [playlist currentVideoIndex set_currentVideoIndex].
  fold (next_index cur (playlist m)). rewrite Hnext.
  unfold bind at 1. rewrite db_update_all_current.
  reflexivity.
Qed.

Lemma start_next_stable I next : frame I → stable I (start_next next).
Proof.
  intros HI. unfold start_next. repeat stable_step. by apply startStream_stable.
Qed.

Lemma frame_stream_status S : frame (λ _ w, stream_status w = S).
Proof. by constructor. Qed.

Lemma playNextVideo_rows m w st cur next :
  loopEnabled m = true → playlist m ≠ [] →
  Sql.latest_status (stream_status w) = Some st →
  current_video_id st = Some cur → cur ≠ 0 →
  playlist_at (playlist m) (next_index cur (playlist m)) = Some next →
  stream_status (world_of (playNextVideo m w)) =
    List.map (with_current_video (Some (video_id next))) (stream_status w).
Proof.
  intros Hloop Hne Hst Hcur Hnz Hnext.
  rewrite (playNextVideo_step m w st cur next) by assumption.
  apply (stable_try_catch (λ _ w', stream_status w' = _)); [| |reflexivity].
  - apply start_next_stable, frame_stream_status.
  - intros e. apply stable_ret.
Qed.

Lemma playNextVideo_no_profile m w st cur next :
  loopEnabled m = true → playlist m ≠ [] →
  Sql.latest_status (stream_status w) = Some st →
  current_video_id st = Some cur → cur ≠ 0 →
  playlist_at (playlist m) (next_index cur (playlist m)) = Some next →
  Sql.active_config (stream_configs w) = None →
  playNextVideo m w =
    (Returned tt,
     set_currentVideoIndex (next_index cur (playlist m)) m,
     set_stream_status
       (List.map (with_current_video (Some (video_id next))) (stream_status w)) w).
Proof.
  intros Hloop Hne Hst Hcur Hnz Hnext Hnone.
  rewrite (playNextVideo_step m w st cur next) by assumption.
  unfold try_catch, start_next, bind, world. cbn [stream_configs set_stream_status].
  rewrite Hnone. reflexivity.
Qed.

Lemma next_index_present vs i v :
  NoDup (video_id <$> vs) → vs !! i = Some v →
  next_index (video_id v) vs = Z.of_nat (S i `mod` length vs).
Proof.
  intros Hnd Hv. unfold next_index. rewrite (findIndex_lookup vs i v Hnd Hv).
  apply lookup_lt_Some in Hv.
  rewrite Z.rem_mod_nonneg by lia.
  rewrite Nat2Z.inj_mod. f_equal. lia.
Qed.

Lemma next_index_absent id vs :
  id ∉ video_id <$> vs → next_index id vs = 0.
Proof.
  intros Hn. unfold next_index. rewrite findIndex_absent by exact Hn.
  reflexivity.
Qed.

Lemma playlist_at_of_nat vs k : playlist_at vs (Z.of_nat k) = vs !! k.
Proof.
  unfold playlist_at. destruct (Z.ltb_spec (Z.of_nat k) 0); [lia|].
  by rewrite Nat2Z.id.
Qed.

(** *** Consecutive advances *)

Lemma frame_looping_over vs : frame (looping_over vs).
Proof.
  constructor; try done.
  intros m w (H1 & H2 & H3). repeat split; [exact H1 | exact H2 | exact H2].
Qed.

Lemma on_close_looping_over vs key code : stable (looping_over vs) (on_close key code).
Proof.
  apply on_close_stable; [apply frame_looping_over | done | done].
Qed.

Lemma on_close_advance key code m w vs i v st :
  looping_over vs m w →
  NoDup (video_id <$> vs) → video_id v ≠ 0 → vs !! i = Some v →
  Sql.latest_status (stream_status w) = Some st →
  current_video_id st = Some (video_id v) →
  ∃ next,
    vs !! (S i `mod` length vs)%nat = Some next ∧
    looping_over vs (engine_of (on_close key code m w)) (world_of (on_close key code m w)) ∧
    Sql.latest_status (stream_status (world_of (on_close key code m w)))
      = Some (with_current_video (Some (video_id next)) st) ∧
    current_item (world_of (on_close key code m w)) = Some (video_id next).
Proof.
  intros Hinv Hnd Hnz Hv Hst Hcur.
  pose proof (on_close_looping_over vs key code m w Hinv) as Hinv'.
  destruct Hinv as (Hloop & Hsync & Hp).
  assert (Hne : vs ≠ []) by (intros ->; by rewrite lookup_nil in Hv).
  assert (Hlt : (S i `mod` length vs < length vs)%nat).
  { apply Nat.mod_upper_bound. destruct vs; [done | cbn; lia]. }
  destruct (lookup_lt_is_Some_2 vs _ Hlt) as [next Hnext].
  exists next. split; [exact Hnext|]. split; [exact Hinv'|].
  assert (Hrows : stream_status (world_of (on_close key code m w)) =
                  List.map (with_current_video (Some (video_id next))) (stream_status w)).
  { rewrite on_close_loop_enabled by exact Hloop.
    apply (playNextVideo_rows _ w st (video_id v) next); try assumption.
    - cbn. by rewrite Hp.
    - cbn. rewrite Hp, (next_index_present vs i v Hnd Hv), playlist_at_of_nat.
      exact Hnext. }
  assert (Hlatest : Sql.latest_status (stream_status (world_of (on_close key code m w)))
                    = Some (with_current_video (Some (video_id next)) st)).
  { rewrite Hrows, latest_status_map by reflexivity. by rewrite Hst. }
  split; [exact Hlatest|].
  unfold current_item. rewrite Hlatest. reflexivity.
Qed.

Lemma rotate_nat_add_first i n : (0 < n)%nat → rotate_nat_add (S i) 0 n = (S i `mod` n)%nat.
Proof.
  intros Hn. rewrite rotate_nat_add_add_mod.
  apply rotate_nat_add_0, Nat.mod_upper_bound; lia.
Qed.

Lemma rotate_nat_add_next i t n :
  (0 < n)%nat → rotate_nat_add (S (S i `mod` n)) t n = rotate_nat_add (S i) (S t) n.
Proof.
  intros Hn. unfold rotate_nat_add. f_equal.
  rewrite (Nat2Z.inj_succ (S i `mod` n)), Nat2Z.inj_mod.
  replace (Z.succ (Z.of_nat (S i) `mod` Z.of_nat n) + Z.of_nat t)
    with (Z.of_nat (S i) `mod` Z.of_nat n + (1 + Z.of_nat t)) by lia.
  rewrite Zplus_mod_idemp_l. f_equal; lia.
Qed.

Lemma closes_length events : ∀ m w, length (closes events m w).1.1 = length events.
Proof.
  induction events as [|[key code] rest IH]; intros m w; [reflexivity|].
  cbn [closes]. specialize (IH (engine_of (on_close key code m w))
                              (world_of (on_close key code m w))).
  destruct (closes rest _ _) as [[seen m'] w']. cbn in *. by rewrite IH.
Qed.

Lemma closes_lookup vs :
  NoDup (video_id <$> vs) → (∀ x, x ∈ vs → video_id x ≠ 0) →
  ∀ events m w i v st,
    looping_over vs m w → vs !! i = Some v →
    Sql.latest_status (stream_status w) = Some st →
    current_video_id st = Some (video_id v) →
    ∀ t, (t < length events)%nat →
      (closes events m w).1.1 !! t =
        (λ x, Some (video_id x)) <$> vs !! rotate_nat_add (S i) t (length vs).
Proof.
  intros Hnd Hnz. induction events as [|[key code] rest IH];
    intros m w i v st Hinv Hv Hst Hcur t Ht; [cbn in Ht; lia|].
  assert (Hlen : (0 < length vs)%nat) by (apply lookup_lt_Some in Hv; lia).
  destruct (on_close_advance key code m w vs i v st Hinv Hnd
              (Hnz v (list_elem_of_lookup_2 _ _ _ Hv)) Hv Hst Hcur)
    as (next & Hnext & Hinv' & Hst' & Hcur').
  cbn [closes].
  specialize (IH (engine_of (on_close key code m w)) (world_of (on_close key code m w))
                 (S i `mod` length vs)%nat next _ Hinv' Hnext Hst' eq_refl).
  destruct (closes rest _ _) as [[seen m'] w']. cbn [fst] in *.
  destruct t as [|t].
  - cbn [lookup list_lookup]. rewrite Hcur', rotate_nat_add_first, Hnext by exact Hlen.
    reflexivity.
  - cbn [lookup list_lookup]. cbn [length] in Ht.
    change (seen !! t = (λ x, Some (video_id x)) <$>
                          vs !! rotate_nat_add (S i) (S t) (length vs)).
    rewrite IH by lia. by rewrite rotate_nat_add_next.
Qed.

Lemma closes_cycle vs events m w i v st :
  NoDup (video_id <$> vs) → (∀ x, x ∈ vs → video_id x ≠ 0) →
  looping_over vs m w → vs !! i = Some v →
  Sql.latest_status (stream_status w) = Some st →
  current_video_id st = Some (video_id v) →
  length events = length vs →
  (closes events m w).1.1 = (λ x, Some (video_id x)) <$> rotate (S i) vs.
Proof.
  intros Hnd Hnz Hinv Hv Hst Hcur Hlen. apply list_eq. intros t.
  rewrite list_lookup_fmap.
  destruct (decide (t < length vs)%nat) as [Ht|Ht].
  - rewrite (closes_lookup vs Hnd Hnz events m w i v st) by (try assumption; lia).
    by rewrite lookup_rotate_r.
  - rewrite !lookup_ge_None_2; [reflexivity | rewrite length_rotate; lia |].
    rewrite closes_length. lia.
Qed.

Lemma rotate_Permutation {A} n (l : list A) : rotate n l ≡ₚ l.
Proof.
  unfold rotate. rewrite Permutation_app_comm. by rewrite take_drop.
Qed.

Lemma rotate_last {A} (l : list A) i x : l !! i = Some x → last (rotate (S i) l) = Some x.
Proof.
  intros Hx. pose proof (lookup_lt_Some _ _ _ Hx) as Hlt.
  rewrite last_lookup, length_rotate, lookup_rotate_r by lia.
  replace (rotate_nat_add (S i) (pred (length l)) (length l)) with i; [exact Hx|].
  unfold rotate_nat_add.
  replace (Z.of_nat (S i) + Z.of_nat (pred (length l)))
    with (Z.of_nat i + 1 * Z.of_nat (length l)) by lia.
  rewrite Z_mod_plus_full, Z.mod_small by lia. by rewrite Nat2Z.id.
Qed.

(** C2.  With the loop on, a status row whose current item [cur] is not 0, and
    a snapshot without repeated ids:
    - if [cur] is the item at position [i] of the snapshot, an advance makes
      the item at position [(i + 1) mod N] the current item;
    - if [cur] is not in the (non-empty) snapshot, it makes the item at
      position 0 the current item;
    - with an empty snapshot the advance changes nothing;
    - without an active profile the new current item is persisted and the
      engine only moves its cursor: no process is started, the registry is as
      before;
    - N consecutive process-end events, for a snapshot that is the ordered
      [videos] table, show the items after the starting one in playlist
      order, wrapping around: every item once, the starting item last. *)
Theorem playlist_advance :
  (∀ m w st cur i v,
     loopEnabled m = true →
     Sql.latest_status (stream_status w) = Some st →
     current_video_id st = Some cur → cur ≠ 0 →
     NoDup (video_id <$> playlist m) →
     playlist m !! i = Some v → video_id v = cur →
     ∃ next,
       playlist m !! (S i `mod` length (playlist m))%nat = Some next ∧
       current_item (world_of (playNextVideo m w)) = Some (video_id next)) ∧
  (∀ m w st cur,
     loopEnabled m = true →
     Sql.latest_status (stream_status w) = Some st →
     current_video_id st = Some cur → cur ≠ 0 →
     playlist m ≠ [] → cur ∉ video_id <$> playlist m →
     ∃ next,
       playlist m !! 0%nat = Some next ∧
       current_item (world_of (playNextVideo m w)) = Some (video_id next)) ∧
  (∀ m w, playlist m = [] → playNextVideo m w = (Returned tt, m, w)) ∧
  (∀ m w st cur next,
     loopEnabled m = true → playlist m ≠ [] →
     Sql.latest_status (stream_status w) = Some st →
     current_video_id st = Some cur → cur ≠ 0 →
     playlist_at (playlist m) (next_index cur (playlist m)) = Some next →
     Sql.active_config (stream_configs w) = None →
     playNextVideo m w =
       (Returned tt,
        set_currentVideoIndex (next_index cur (playlist m)) m,
        set_stream_status
          (List.map (with_current_video (Some (video_id next))) (stream_status w)) w)) ∧
  (∀ vs events m w i v st,
     NoDup (video_id <$> vs) → (∀ x, x ∈ vs → video_id x ≠ 0) →
     looping_over vs m w → vs !! i = Some v →
     Sql.latest_status (stream_status w) = Some st →
     current_video_id st = Some (video_id v) →
     length events = length vs →
     (closes events m w).1.1 = (λ x, Some (video_id x)) <$> rotate (S i) vs ∧
     (closes events m w).1.1 ≡ₚ (λ x, Some (video_id x)) <$> vs ∧
     last (closes events m w).1.1 = Some (Some (video_id v))).
Proof.
  split; [|split; [|split; [|split]]].
  - intros m w st cur i v Hloop Hst Hcur Hnz Hnd Hv Hid.
    assert (Hne : playlist m ≠ []) by (intros E; by rewrite E, lookup_nil in Hv).
    destruct (playlist_at_next cur (playlist m) Hne) as [next Hnext].
    exists next. split.
    + rewrite <- Hid, (next_index_present _ i v Hnd Hv), playlist_at_of_nat in Hnext.
      exact Hnext.
    + unfold current_item.
      rewrite (playNextVideo_rows m w st cur next) by assumption.
      rewrite latest_status_map by reflexivity. by rewrite Hst.
  - intros m w st cur Hloop Hst Hcur Hnz Hne Habs.
    destruct (playlist_at_next cur (playlist m) Hne) as [next Hnext].
    exists next. split.
    + rewrite (next_index_absent _ _ Habs) in Hnext. exact Hnext.
    + unfold current_item.
      rewrite (playNextVideo_rows m w st cur next) by assumption.
      rewrite latest_status_map by reflexivity. by rewrite Hst.
  - intros m w E. apply playNextVideo_guard. rewrite E. by destruct (loopEnabled m).
  - apply playNextVideo_no_profile.
  - intros vs events m w i v st Hnd Hnz Hinv Hv Hst Hcur Hlen.
    rewrite (closes_cycle vs events m w i v st) by assumption.
    split; [reflexivity|]. split.
    + by rewrite rotate_Permutation.
    + rewrite fmap_last, (rotate_last vs i v Hv). reflexivity.
Qed.

Lemma playlist_advance_witness :
  looping_over [item_A; item_B]
    (engine_of (looping_A [row_abc])) (world_of (looping_A [row_abc])) ∧
  (closes [("video_1"%string, 0); ("video_2"%string, 0)]
     (engine_of (looping_A [row_abc])) (world_of (looping_A [row_abc]))).1.1
  = [Some 2; Some 1].
Proof.
  assert (Hinv : looping_over [item_A; item_B]
                   (engine_of (looping_A [row_abc])) (world_of (looping_A [row_abc]))).
  { repeat split; vm_compute; reflexivity. }
  split; [exact Hinv|].
  destruct playlist_advance as (_ & _ & _ & _ & H).
  destruct (H [item_A; item_B] [("video_1"%string, 0); ("video_2"%string, 0)]
              (engine_of (looping_A [row_abc])) (world_of (looping_A [row_abc]))
              0%nat item_A live_row) as [-> _].
  - cbn. apply NoDup_cons. split; [|apply NoDup_singleton].
    intros Hin. apply list_elem_of_In in Hin. cbn in Hin. intuition discriminate.
  - intros x Hx. apply list_elem_of_In in Hx. cbn in Hx.
    destruct Hx as [<- | [<- | []]]; discriminate.
  - exact Hinv.
  - reflexivity.
  - vm_compute. reflexivity.
  - reflexivity.
  - reflexivity.
  - reflexivity.
Defined.

(** The same two events on the engine itself: after the process of A ends, B
    is current and a session for B is registered; after the process of B
    ends, A is current again. *)
Example loop_scenario_A_B :
  let r1 := on_close "video_1" 0
              (engine_of (looping_A [row_abc])) (world_of (looping_A [row_abc])) in
  let r2 := on_close "video_2" 0 (engine_of r1) (world_of r1) in
  current_item (world_of r1) = Some 2 ∧
  dom (activeStreams (engine_of r1)) = {[ "video_2"%string ]} ∧
  current_item (world_of r2) = Some 1 ∧
  dom (activeStreams (engine_of r2)) = {[ "video_1"%string ]}.
Proof. split; [|split; [|split]]; vm_compute; reflexivity. Qed.

(** ** The start time of the uptime clock

    [startUptimeTracking] records the start time and then calls
    [stopUptimeTracking], which resets it; no other method sets it for longer
    than that.  So between calls the start time is [null], and the interval
    callback, which asks for a start time first, writes nothing. *)

Lemma establishes_stable {A} I (c : M A) : establishes I c → stable I c.
Proof. intros H m w _. apply H. Qed.

Lemma establishes_bind {A B} I (c : M A) (k : A → M B) :
  establishes I c → (∀ a, stable I (k a)) → establishes I (bind c k).
Proof.
  intros Hc Hk m w. specialize (Hc m w). unfold bind, engine_of, world_of in *.
  destruct (c m w) as [[[a|e] m'] w']; cbn in *; [apply (Hk a m' w' Hc) | exact Hc].
Qed.

Lemma establishes_after_assign {A} I f (c : M A) :
  establishes I c → establishes I (assign_this f ;;; c).
Proof. intros Hc m w. apply Hc. Qed.

Lemma stopUptimeTracking_no_start_time : establishes no_start_time stopUptimeTracking.
Proof. intros m w. rewrite stopUptimeTracking_eq. reflexivity. Qed.

Lemma startUptimeTracking_no_start_time : establishes no_start_time startUptimeTracking.
Proof. intros m w. rewrite startUptimeTracking_eq. reflexivity. Qed.

Lemma stopStream_no_start_time key : establishes no_start_time (stopStream key).
Proof.
  intros m w. rewrite stopStream_cases. by destruct (JS.truthy_str key).
Qed.

Lemma spawn_no_start_time args : stable no_start_time (spawn args).
Proof. unfold spawn. repeat stable_step. done. Qed.

Lemma startStream_no_start_time videoId config :
  stable no_start_time (startStream videoId config).
Proof.
  unfold startStream.
  apply stable_try_catch; [|intros; apply stable_ret].
  apply stable_bind; [apply stable_world | intros w0].
  destruct (Sql.select_video videoId (videos w0)) as [|video rest]; [apply stable_throw|].
  destruct (negb (bool_decide (videoPath video ∈ files w0))); [apply stable_throw|].
  apply stable_bind; [apply stable_this | intros m0].
  apply stable_bind.
  { destruct (bool_decide _); repeat stable_step.
    apply establishes_stable, stopStream_no_start_time. }
  intros _. destruct (negb (child_process w0)).
  - apply stable_bind; [stable_step; done | intros _].
    apply establishes_stable, establishes_after_assign, establishes_bind.
    + apply startUptimeTracking_no_start_time.
    + intros; apply stable_ret.
  - apply stable_bind; [apply spawn_no_start_time | intros pid].
    apply stable_bind; [stable_step; done | intros _].
    apply stable_bind; [stable_step; done | intros _].
    apply establishes_stable, establishes_after_assign, establishes_bind.
    + apply startUptimeTracking_no_start_time.
    + intros. repeat stable_step. intros m1 w1 H. rewrite loadPlaylist_eq. exact H.
Qed.

Lemma streamToMultiplePlatforms_no_start_time videoId platforms :
  stable no_start_time (streamToMultiplePlatforms videoId platforms).
Proof.
  unfold streamToMultiplePlatforms. repeat stable_step.
  all: try (apply establishes_stable, stopStream_no_start_time).
  all: try apply spawn_no_start_time.
  all: done.
Qed.

Lemma playNextVideo_no_start_time : stable no_start_time playNextVideo.
Proof.
  unfold playNextVideo. repeat stable_step.
  all: try apply startStream_no_start_time.
  all: try done.
  intros m1 w1 H. rewrite db_update_all_current. exact H.
Qed.

Lemma run_no_start_time c : stable no_start_time (run c).
Proof.
  destruct c; cbn [run].
  all: unfold stopAllStreams, setLoopEnabled, isLoopEnabled, isStreaming, multi_on_close,
         multi_on_error; repeat stable_step; try done.
  - apply startStream_no_start_time.
  - apply establishes_stable, stopStream_no_start_time.
  - apply establishes_stable, stopStream_no_start_time.
  - intros m w H. rewrite loadPlaylist_eq. exact H.
  - apply playNextVideo_no_start_time.
  - apply streamToMultiplePlatforms_no_start_time.
  - apply establishes_stable, startUptimeTracking_no_start_time.
  - apply establishes_stable, stopUptimeTracking_no_start_time.
  - intros m w H.
    destruct (Sql.assign_all (updateData (clock w) status0 videoId additionalData))
      as [f|] eqn:E.
    + rewrite (updateStreamStatus_accepted _ _ _ f) by exact E. exact H.
    + rewrite updateStreamStatus_rejected by exact E. exact H.
  - intros m w H. destruct (loopEnabled m) eqn:E.
    + rewrite on_close_loop_enabled by exact E.
      apply playNextVideo_no_start_time. exact H.
    + rewrite on_close_loop_disabled by exact E. reflexivity.
  - intros m w H. rewrite on_error_eq. reflexivity.
  - intros m w H. rewrite uptime_tick_eq. exact H.
Qed.

Lemma reachable_no_start_time m w : reachable m w → streamStartTime m = None.
Proof.
  induction 1 as [w | c m w _ IH | m w w' _ IH].
  - reflexivity.
  - apply (run_no_start_time c m w IH).
  - exact IH.
Qed.

(** In every state the engine can reach, a tick writes nothing. *)
Lemma uptime_tick_reachable floor100 m w :
  reachable m w → uptime_tick floor100 m w = (Returned tt, m, w).
Proof.
  intros H. rewrite uptime_tick_eq, (reachable_no_start_time m w H). reflexivity.
Qed.

(** ** What a successful start does *)

Lemma spawned_one_signalled key m w : spawned (one_signalled key m w) = spawned w.
Proof.
  unfold one_signalled, interval_cleared.
  destruct (uptimeInterval m), (activeStreams m !! key) as [[|pid]|]; reflexivity.
Qed.

Lemma spawned_interval_cleared t w : spawned (interval_cleared t w) = spawned w.
Proof. destruct t; reflexivity. Qed.

Lemma spawn_eq args m w :
  spawn_ok w = true →
  spawn args m w = (Returned (length (spawned w)), m, set_spawned (spawned w ++ [args]) w).
Proof. intros H. unfold spawn, bind, world, effect, ret. rewrite H. reflexivity. Qed.

Arguments spawn : simpl never.
Arguments loadPlaylist : simpl never.

(** With the item in the table, its file on disk and a runtime that spawns,
    [startStream] returns [true], has started one ffmpeg process with the
    arguments of [buildFFmpegArgs], registered it under the key of the item
    and stored the profile. *)
Lemma startStream_started videoId config m w video rest :
  Sql.select_video videoId (videos w) = video :: rest →
  videoPath video ∈ files w →
  child_process w = true → spawn_ok w = true →
  result_of (startStream videoId config m w) = Returned true ∧
  spawned (world_of (startStream videoId config m w)) =
    spawned w ++ [buildFFmpegArgs (videoPath video) (fullRtmpUrl config) config] ∧
  activeStreams (engine_of (startStream videoId config m w)) !! video_key videoId =
    Some (Child (length (spawned w))) ∧
  streamConfigs (engine_of (startStream videoId config m w)) !! video_key videoId =
    Some config.
Proof.
  intros H Hf Hc Hs.
  assert (E : ∃ m' w',
             startStream videoId config m w = (Returned true, m', w') ∧
             spawned w' =
               spawned w ++ [buildFFmpegArgs (videoPath video) (fullRtmpUrl config) config] ∧
             activeStreams m' !! video_key videoId = Some (Child (length (spawned w))) ∧
             streamConfigs m' !! video_key videoId = Some config).
  { unfold startStream, try_catch, bind at 1, world at 1. rewrite H.
    rewrite bool_decide_eq_true_2 by exact Hf. cbn [negb]. rewrite Hc. cbn [negb].
    unfold bind at 1, this at 1.
    destruct (bool_decide (is_Some (activeStreams m !! video_key videoId))).
    - unfold bind at 1.
      rewrite (bind_Returned _ _ _ _ _ _ _
                 (stopStream_key_eq _ m w (video_key_truthy videoId))).
      unfold ret at 1. unfold bind at 1.
      rewrite spawn_eq by (by rewrite spawn_ok_one_signalled).
      unfold bind, assign_this; cbn.
      rewrite startUptimeTracking_eq, loadPlaylist_eq.
      eexists _, _. split; [reflexivity|]. cbn.
      rewrite ?spawned_interval_cleared, ?spawned_one_signalled, !lookup_insert_eq.
      split; [reflexivity | split; reflexivity].
    - unfold bind at 1, ret at 1. unfold bind at 1.
      rewrite spawn_eq by exact Hs.
      unfold bind, assign_this; cbn.
      rewrite startUptimeTracking_eq, loadPlaylist_eq.
      eexists _, _. split; [reflexivity|]. cbn.
      rewrite ?spawned_interval_cleared, !lookup_insert_eq.
      split; [reflexivity | split; reflexivity]. }
  destruct E as (m' & w' & -> & E1 & E2 & E3).
  split; [reflexivity|]. split; [exact E1|]. split; [exact E2 | exact E3].
Qed.

(** The session started on the small deployment sends to
    [rtmp://a.rtmp.youtube.com/live2/abc]. *)
Example streaming_A_destination :
  (last <$> spawned (world_of (streaming_A [])))
  = [Some "rtmp://a.rtmp.youtube.com/live2/abc"%string].
Proof. vm_compute. reflexivity. Qed.

(** With the loop on, the end of a multi-destination process changes nothing
    outside the registry, while the end of the process of A advances the
    playlist. *)
Example multi_close_with_loop_on :
  world_of (multi_on_close "multistream_1" 0
              (engine_of (looping_A [row_abc])) (world_of (looping_A [row_abc])))
    = world_of (looping_A [row_abc]) ∧
  current_item (world_of (looping_A [row_abc])) = Some 1 ∧
  current_item
    (world_of (on_close "video_1" 0
                 (engine_of (looping_A [row_abc])) (world_of (looping_A [row_abc]))))
    = Some 2.
Proof. split; [|split]; vm_compute; reflexivity. Qed.

(** A session started with the loop on, the loop switched off while it runs:
    when the process ends nothing is advanced and tracking stops. *)
Example close_after_loop_switched_off :
  let r := startStream 1 profile_abc (set_loopEnabled true constructor) (world_AB [row_abc]) in
  let r' := setLoopEnabled false (engine_of r) (world_of r) in
  let r'' := on_close "video_1" 0 (engine_of r') (world_of r') in
  current_item (world_of r'') = Some 1 ∧
  spawned (world_of r'') = spawned (world_of r) ∧
  uptimeInterval (engine_of r'') = None ∧
  stream_status (world_of r'') = [live_row].
Proof. split; [|split; [|split]]; vm_compute; reflexivity. Qed.

(** ** More on starting *)

Lemma killed_interval_cleared t w : killed (interval_cleared t w) = killed w.
Proof. destruct t; reflexivity. Qed.

Lemma size_pos_lookup {A} (m : gmap string A) k x :
  m !! k = Some x → (0 <? size m)%nat = true.
Proof.
  intros H. apply Nat.ltb_lt.
  destruct (decide (size m = 0%nat)) as [E|E]; [|lia].
  apply map_size_empty_iff in E. subst m. by rewrite lookup_empty in H.
Qed.

(** What a start that reaches [spawn] leaves behind, field by field. *)
Lemma startStream_real videoId config m w video rest :
  Sql.select_video videoId (videos w) = video :: rest →
  videoPath video ∈ files w →
  child_process w = true → spawn_ok w = true →
  ∃ m' w',
    startStream videoId config m w = (Returned true, m', w') ∧
    activeStreams m' =
      <[video_key videoId := Child (length (spawned w))]> (activeStreams m) ∧
    streamConfigs m' = <[video_key videoId := config]> (streamConfigs m) ∧
    loopEnabled m' = loopEnabled m ∧
    uptimeInterval m' = Some (next_timer w) ∧
    streamStartTime m' = None ∧
    playlist m' = Sql.videos_by_order (videos w) ∧
    spawned w' =
      spawned w ++ [buildFFmpegArgs (videoPath video) (fullRtmpUrl config) config] ∧
    killed w' =
      match activeStreams m !! video_key videoId with
      | Some (Child pid) => {[pid]} ∪ killed w
      | _ => killed w
      end ∧
    stream_status w' = stream_status w ∧ videos w' = videos w ∧
    stream_configs w' = stream_configs w ∧ files w' = files w ∧
    clock w' = clock w.
Proof.
  intros H Hf Hc Hs.
  pose proof (video_key_truthy videoId) as Hk.
  unfold startStream, try_catch, bind at 1, world at 1. rewrite H.
  rewrite bool_decide_eq_true_2 by exact Hf. cbn [negb]. rewrite Hc. cbn [negb].
  unfold bind at 1, this at 1. cbv zeta.
  generalize dependent (video_key videoId). intros key Hk.
  destruct (activeStreams m !! key) as [h|] eqn:E.
  - rewrite bool_decide_eq_true_2 by eauto.
    unfold bind at 1.
    rewrite (bind_Returned _ _ _ _ _ _ _ (stopStream_key_eq _ m w Hk)).
    unfold ret at 1. unfold bind at 1.
    rewrite spawn_eq by (by rewrite spawn_ok_one_signalled).
    unfold bind, assign_this; cbn.
    rewrite startUptimeTracking_eq, loadPlaylist_eq.
    eexists _, _. split; [reflexivity|]. cbn.
    rewrite ?spawned_one_signalled, insert_delete_eq.
    unfold one_signalled. rewrite E.
    destruct (uptimeInterval m), h; cbn; repeat split; reflexivity.
  - rewrite bool_decide_eq_false_2 by (intros [? [=]]).
    unfold bind at 1, ret at 1. unfold bind at 1.
    rewrite spawn_eq by exact Hs.
    unfold bind, assign_this; cbn.
    rewrite startUptimeTracking_eq, loadPlaylist_eq.
    eexists _, _. split; [reflexivity|]. cbn.
    destruct (uptimeInterval m); cbn; repeat split; reflexivity.
Qed.

(** X1.  With the item in [videos], its file on disk and a runtime that
    spawns, [startStream] returns [true]; right after it [isStreaming()] is
    [true]; one ffmpeg process was started, with the arguments of
    [buildFFmpegArgs] for the file and the composed destination; the registry
    holds that process under the key of the item, the profile is stored under
    the same key, the playlist snapshot is the ordered [videos] table, and the
    [stream_status] rows are not written. *)
Theorem startStream_success videoId config m w video rest :
  Sql.select_video videoId (videos w) = video :: rest →
  videoPath video ∈ files w →
  child_process w = true → spawn_ok w = true →
  result_of (startStream videoId config m w) = Returned true ∧
  result_of (isStreaming (engine_of (startStream videoId config m w))
                         (world_of (startStream videoId config m w))) = Returned true ∧
  spawned (world_of (startStream videoId config m w)) =
    spawned w ++ [buildFFmpegArgs (videoPath video) (fullRtmpUrl config) config] ∧
  activeStreams (engine_of (startStream videoId config m w)) !! video_key videoId =
    Some (Child (length (spawned w))) ∧
  streamConfigs (engine_of (startStream videoId config m w)) !! video_key videoId =
    Some config ∧
  playlist (engine_of (startStream videoId config m w)) = Sql.videos_by_order (videos w) ∧
  stream_status (world_of (startStream videoId config m w)) = stream_status w.
Proof.
  intros H Hf Hc Hs.
  destruct (startStream_real videoId config m w video rest H Hf Hc Hs)
    as (m' & w' & -> & Ha & Hcf & _ & _ & _ & Hp & Hsp & _ & Hst & _).
  unfold result_of, engine_of, world_of; cbn [fst snd].
  assert (Hl : activeStreams m' !! video_key videoId = Some (Child (length (spawned w))))
    by (rewrite Ha; apply lookup_insert_eq).
  split; [reflexivity|]. split.
  { unfold isStreaming, bind, this, ret. cbn [fst]. f_equal.
    by apply size_pos_lookup with (video_key videoId) (Child (length (spawned w))). }
  split; [exact Hsp|]. split; [exact Hl|]. split.
  { rewrite Hcf. apply lookup_insert_eq. }
  split; [exact Hp | exact Hst].
Qed.

Lemma startStream_success_witness :
  Sql.select_video 2 (videos (world_AB [])) = [item_B] ∧
  result_of (startStream 2 profile_abc constructor (world_AB [])) = Returned true ∧
  activeStreams (engine_of (startStream 2 profile_abc constructor (world_AB [])))
    !! video_key 2 = Some (Child 0).
Proof.
  split; [reflexivity|].
  destruct (startStream_success 2 profile_abc constructor (world_AB []) item_B [])
    as (H1 & _ & _ & H2 & _).
  - reflexivity.
  - cbn. apply elem_of_union_r, elem_of_singleton. reflexivity.
  - reflexivity.
  - reflexivity.
  - split; [exact H1 | exact H2].
Defined.

(** X2.  Starting an item that already has a session: the process of the old
    entry is sent SIGTERM (a mock entry is not), the entry of the key is
    replaced by the new process, and the entries of all other keys are as
    before. *)
Theorem startStream_replaces_session videoId config m w video rest old :
  Sql.select_video videoId (videos w) = video :: rest →
  videoPath video ∈ files w →
  child_process w = true → spawn_ok w = true →
  activeStreams m !! video_key videoId = Some old →
  killed (world_of (startStream videoId config m w)) =
    match old with Child pid => {[pid]} ∪ killed w | Mock => killed w end ∧
  activeStreams (engine_of (startStream videoId config m w)) !! video_key videoId =
    Some (Child (length (spawned w))) ∧
  (∀ key, key ≠ video_key videoId →
     activeStreams (engine_of (startStream videoId config m w)) !! key =
       activeStreams m !! key).
Proof.
  intros H Hf Hc Hs Hold.
  destruct (startStream_real videoId config m w video rest H Hf Hc Hs)
    as (m' & w' & -> & Ha & _ & _ & _ & _ & _ & _ & Hk & _).
  unfold engine_of, world_of; cbn [fst snd]. rewrite Hold in Hk.
  split; [exact Hk|]. rewrite Ha. split; [apply lookup_insert_eq|].
  intros key Hne. by apply lookup_insert_ne.
Qed.

Lemma startStream_replaces_session_witness :
  activeStreams (engine_of (streaming_A [])) !! video_key 1 = Some (Child 0) ∧
  killed (world_of (startStream 1 profile_abc (engine_of (streaming_A []))
                      (world_of (streaming_A [])))) = {[ 0%nat ]} ∪ ∅ ∧
  activeStreams (engine_of (startStream 1 profile_abc (engine_of (streaming_A []))
                              (world_of (streaming_A []))))
    !! video_key 1 = Some (Child 1).
Proof.
  assert (Hold : activeStreams (engine_of (streaming_A [])) !! video_key 1 = Some (Child 0))
    by (vm_compute; reflexivity).
  split; [exact Hold|].
  destruct (startStream_replaces_session 1 profile_abc (engine_of (streaming_A []))
              (world_of (streaming_A [])) item_A [] (Child 0)) as (H1 & H2 & _).
  - vm_compute. reflexivity.
  - replace (files (world_of (streaming_A []))) with (files (world_AB []))
      by (vm_compute; reflexivity).
    cbn. apply elem_of_union_l, elem_of_singleton. reflexivity.
  - vm_compute. reflexivity.
  - vm_compute. reflexivity.
  - exact Hold.
  - split.
    + rewrite H1. f_equal; try (vm_compute; reflexivity).
    + rewrite H2. vm_compute. reflexivity.
Defined.

(** What a start without a process runtime leaves behind. *)
Lemma startStream_mock_eq videoId config m w video rest :
  Sql.select_video videoId (videos w) = video :: rest →
  videoPath video ∈ files w →
  child_process w = false →
  ∃ m' w',
    startStream videoId config m w = (Returned true, m', w') ∧
    activeStreams m' = <[video_key videoId := Mock]> (activeStreams m) ∧
    streamConfigs m' = streamConfigs m ∧
    playlist m' = playlist m ∧
    uptimeInterval m' = Some (next_timer w) ∧
    spawned w' = spawned w ∧
    stream_status w' = stream_status w.
Proof.
  intros H Hf Hc.
  pose proof (video_key_truthy videoId) as Hk.
  unfold startStream, try_catch, bind at 1, world at 1. rewrite H.
  rewrite bool_decide_eq_true_2 by exact Hf. cbn [negb]. rewrite Hc. cbn [negb].
  unfold bind at 1, this at 1. cbv zeta.
  generalize dependent (video_key videoId). intros key Hk.
  destruct (activeStreams m !! key) as [h|] eqn:E.
  - rewrite bool_decide_eq_true_2 by eauto.
    unfold bind at 1.
    rewrite (bind_Returned _ _ _ _ _ _ _ (stopStream_key_eq _ m w Hk)).
    unfold ret at 1. unfold bind, assign_this; cbn.
    rewrite startUptimeTracking_eq.
    eexists _, _. split; [reflexivity|]. cbn.
    rewrite insert_delete_eq. unfold one_signalled. rewrite E.
    destruct (uptimeInterval m), h; cbn; repeat split; reflexivity.
  - rewrite bool_decide_eq_false_2 by (intros [? [=]]).
    unfold bind at 1, ret at 1. unfold bind, assign_this; cbn.
    rewrite startUptimeTracking_eq.
    eexists _, _. split; [reflexivity|]. cbn.
    destruct (uptimeInterval m); cbn; repeat split; reflexivity.
Qed.

(** X3.  Without a process runtime ([require('child_process')] fails),
    [startStream] of an existing item still returns [true] and reports
    streaming: it registers a mock entry and starts the uptime interval, but
    starts no process, stores no profile and does not reload the playlist. *)
Theorem startStream_mock_session videoId config m w video rest :
  Sql.select_video videoId (videos w) = video :: rest →
  videoPath video ∈ files w →
  child_process w = false →
  result_of (startStream videoId config m w) = Returned true ∧
  result_of (isStreaming (engine_of (startStream videoId config m w))
                         (world_of (startStream videoId config m w))) = Returned true ∧
  activeStreams (engine_of (startStream videoId config m w)) !! video_key videoId =
    Some Mock ∧
  uptimeInterval (engine_of (startStream videoId config m w)) = Some (next_timer w) ∧
  spawned (world_of (startStream videoId config m w)) = spawned w ∧
  streamConfigs (engine_of (startStream videoId config m w)) = streamConfigs m ∧
  playlist (engine_of (startStream videoId config m w)) = playlist m.
Proof.
  intros H Hf Hc.
  destruct (startStream_mock_eq videoId config m w video rest H Hf Hc)
    as (m' & w' & -> & Ha & Hcf & Hp & Hu & Hsp & _).
  unfold result_of, engine_of, world_of; cbn [fst snd].
  assert (Hl : activeStreams m' !! video_key videoId = Some Mock)
    by (rewrite Ha; apply lookup_insert_eq).
  split; [reflexivity|]. split.
  { unfold isStreaming, bind, this, ret. cbn [fst]. f_equal.
    by apply size_pos_lookup with (video_key videoId) Mock. }
  split; [exact Hl|]. split; [exact Hu|]. split; [exact Hsp|].
  split; [exact Hcf | exact Hp].
Qed.

Lemma startStream_mock_session_witness :
  child_process world_no_runtime = false ∧
  result_of (startStream 1 profile_abc constructor world_no_runtime) = Returned true ∧
  spawned (world_of (startStream 1 profile_abc constructor world_no_runtime)) = [].
Proof.
  split; [reflexivity|].
  destruct (startStream_mock_session 1 profile_abc constructor world_no_runtime item_A [])
    as (H1 & _ & _ & _ & H2 & _).
  - reflexivity.
  - cbn. apply elem_of_union_l, elem_of_singleton. reflexivity.
  - reflexivity.
  - split; [exact H1 | exact H2].
Defined.

(** ** More on the uptime tick *)

Lemma streaming_A_reachable profiles :
  reachable (engine_of (streaming_A profiles)) (world_of (streaming_A profiles)).
Proof.
  unfold streaming_A.
  pose proof (reachable_run (StartStream 1 profile_abc) _ _
                (reachable_new (world_AB profiles))) as H1.
  cbn [run] in H1. rewrite engine_of_then_ret, world_of_then_ret in H1. exact H1.
Qed.

(** X4.  In every state the engine can reach from [new RTMPStreamManager()]
    by calls of its methods and deliveries of its events, no start time is
    recorded ([startUptimeTracking] sets it and then resets it through
    [stopUptimeTracking]), and so the interval callback writes nothing: the
    persisted [uptime] and [viewer_count] are never refreshed. *)
Theorem tick_never_writes_when_reachable m w :
  reachable m w →
  streamStartTime m = None ∧
  ∀ floor100, uptime_tick floor100 m w = (Returned tt, m, w).
Proof.
  intros H. split; [by apply reachable_no_start_time with w|].
  intros floor100. by apply uptime_tick_reachable.
Qed.

Lemma tick_never_writes_when_reachable_witness :
  (0 < size (activeStreams (engine_of (streaming_A []))))%nat ∧
  (status <$> Sql.latest_status (stream_status (world_of (streaming_A []))))
    = Some "live"%string ∧
  stream_status (world_of (uptime_tick 62 (engine_of (streaming_A []))
                                         (world_of (streaming_A []))))
    = [live_row].
Proof.
  split; [vm_compute; lia|]. split; [vm_compute; reflexivity|].
  destruct (tick_never_writes_when_reachable _ _ (streaming_A_reachable [])) as [_ H].
  rewrite H. vm_compute. reflexivity.
Defined.

Lemma tick_written_outside t0 floor100 w :
  row_outside_tick <$> stream_status (tick_written t0 floor100 w) =
  row_outside_tick <$> stream_status w.
Proof.
  unfold tick_written. cbn [stream_status set_stream_status].
  destruct (Sql.max_id (stream_status w)) as [i|]; [|reflexivity].
  induction (stream_status w) as [|r rows IH]; [reflexivity|].
  cbn. rewrite <- IH. f_equal. by destruct (status_id r =? i).
Qed.

(** X8.  Whatever the state, the interval callback changes at most the
    [uptime] and [viewer_count] of status rows: ids, [status], current item,
    start time and loop flag of every row, the other tables, the processes
    and the engine are as before. *)
Theorem uptime_tick_frame floor100 m w :
  engine_of (uptime_tick floor100 m w) = m ∧
  row_outside_tick <$> stream_status (world_of (uptime_tick floor100 m w)) =
    row_outside_tick <$> stream_status w ∧
  videos (world_of (uptime_tick floor100 m w)) = videos w ∧
  stream_configs (world_of (uptime_tick floor100 m w)) = stream_configs w ∧
  spawned (world_of (uptime_tick floor100 m w)) = spawned w ∧
  killed (world_of (uptime_tick floor100 m w)) = killed w.
Proof.
  rewrite uptime_tick_eq. unfold engine_of, world_of; cbn [fst snd].
  split; [reflexivity|].
  destruct (streamStartTime m) as [t0|]; [|by repeat split].
  destruct (Sql.latest_status (stream_status w)) as [st|]; [|by repeat split].
  destruct (_ && _)%bool; [|by repeat split].
  split; [apply tick_written_outside|]. by repeat split.
Qed.

(** ** More on the dynamic status update *)

Lemma assign_unknown_column k v :
  Sql.fold_ident k ∉ stream_status_columns → Sql.assign k v = None.
Proof.
  intros Hk. unfold Sql.assign. cbv zeta.
  repeat match goal with
         | |- context [String.eqb (Sql.fold_ident k) ?s] =>
             destruct (String.eqb_spec (Sql.fold_ident k) s) as [E|_];
               [exfalso; apply Hk; rewrite E; apply list_elem_of_In; cbn; tauto|]
         end.
  reflexivity.
Qed.

Lemma obj_set_has k v o : (k, v) ∈ obj_set k v o.
Proof.
  induction o as [|[k' v'] o IH]; cbn.
  - apply list_elem_of_here.
  - destruct (String.eqb k k'); [apply list_elem_of_here | by apply list_elem_of_further].
Qed.

Lemma obj_set_keeps k v k0 v0 o :
  (k0, v0) ∈ o → ∃ v1, (k0, v1) ∈ obj_set k v o.
Proof.
  induction o as [|[k' v'] o IH]; cbn; intros Hin.
  - by apply elem_of_nil in Hin.
  - apply elem_of_cons in Hin. destruct (String.eqb_spec k k') as [->|Hne].
    + destruct Hin as [[= -> ->] | Hin].
      * exists v. apply list_elem_of_here.
      * exists v0. by apply list_elem_of_further.
    + destruct Hin as [[= -> ->] | Hin].
      * exists v'. apply list_elem_of_here.
      * destruct (IH Hin) as [v1 H1]. exists v1. by apply list_elem_of_further.
Qed.

Lemma obj_spread_has extra : ∀ base k v,
  (k, v) ∈ extra → ∃ v', (k, v') ∈ obj_spread base extra.
Proof.
  unfold obj_spread. induction extra as [|[k1 v1] extra IH]; intros base k v Hin.
  - by apply elem_of_nil in Hin.
  - cbn [fold_left fst snd]. apply elem_of_cons in Hin. destruct Hin as [[= -> ->] | Hin].
    + assert (Hkeeps : ∀ l o, (∃ v0, (k1, v0) ∈ o) →
                ∃ v', (k1, v') ∈ fold_left (λ o kv, obj_set kv.1 kv.2 o) l o).
      { clear. induction l as [|[k2 v2] l IHl]; intros o [v0 H0]; cbn [fold_left fst snd].
        - eauto.
        - apply IHl. by apply obj_set_keeps with v0. }
      apply Hkeeps. exists v1. apply obj_set_has.
    + by apply IH with v.
Qed.

Lemma assign_all_unknown sets k v :
  (k, v) ∈ sets → Sql.assign k v = None → Sql.assign_all sets = None.
Proof.
  induction sets as [|[k' v'] sets IH]; intros Hin Hnone.
  - by apply elem_of_nil in Hin.
  - cbn [Sql.assign_all]. apply elem_of_cons in Hin. destruct Hin as [[= <- <-] | Hin].
    + by rewrite Hnone.
    + rewrite (IH Hin Hnone). by destruct (Sql.assign k' v').
Qed.

(** X5.  [updateStreamStatus] copies every key of [additionalData] into the
    column list of its [UPDATE].  If one of the keys is not a column of
    [stream_status] (compared as PostgreSQL folds it), the statement is
    rejected, the method swallows the error, and nothing at all is written:
    not even the status and the columns whose keys are fine. *)
Theorem updateStreamStatus_unknown_key st videoId additionalData k v m w :
  (k, v) ∈ additionalData →
  Sql.fold_ident k ∉ stream_status_columns →
  updateStreamStatus st videoId additionalData m w = (Returned tt, m, w).
Proof.
  intros Hin Hk. apply updateStreamStatus_rejected.
  unfold updateData.
  destruct (obj_spread_has additionalData
              [ ("status"%string, JStr st);
                ("current_video_id"%string, videoId);
                ("started_at"%string, if String.eqb st "live" then JDate (clock w) else JNull);
                ("viewer_count"%string, obj_get_or "viewerCount" additionalData (JNum 0));
                ("uptime"%string, obj_get_or "uptime" additionalData (JStr "00:00:00"));
                ("loop_playlist"%string,
                   match obj_get "loopPlaylist" additionalData with
                   | Some v => v
                   | None => JBool false
                   end) ] k v Hin) as [v' Hv'].
  apply (assign_all_unknown _ k v' Hv'). by apply assign_unknown_column.
Qed.

Lemma updateStreamStatus_unknown_key_witness :
  (Sql.fold_ident "errorMessage" ∉ stream_status_columns) ∧
  stream_status
    (world_of (updateStreamStatus "error" JNull [("errorMessage"%string, JStr "boom")]
                 constructor (world_AB [])))
  = [live_row].
Proof.
  assert (H : Sql.fold_ident "errorMessage" ∉ stream_status_columns).
  { intros Hin. apply list_elem_of_In in Hin. cbn in Hin. intuition discriminate. }
  split; [exact H|].
  rewrite (updateStreamStatus_unknown_key "error" JNull
             [("errorMessage"%string, JStr "boom")] "errorMessage" (JStr "boom")
             constructor (world_AB [])).
  - reflexivity.
  - apply list_elem_of_here.
  - exact H.
Defined.

(** ** More on stopping *)

Lemma kill_all_spec (streams : gmap string Handle) (K0 : gset nat) :
  ∀ pid,
    pid ∈ map_fold (λ _ h acc, match h with Child p => {[p]} ∪ acc | Mock => acc end)
                   K0 streams
    ↔ pid ∈ K0 ∨ ∃ key, streams !! key = Some (Child pid).
Proof.
  apply (map_fold_weak_ind
           (λ r (s : gmap string Handle),
              ∀ pid, pid ∈ r ↔ pid ∈ K0 ∨ ∃ key, s !! key = Some (Child pid))).
  - intros pid. split; [by left|]. intros [H | [key H]]; [exact H|].
    by rewrite lookup_empty in H.
  - intros i h s r Hi IH pid. split.
    + destruct h as [|p].
      * intros Hr. apply IH in Hr. destruct Hr as [H | [key H]]; [by left|].
        right. exists key. rewrite lookup_insert_ne; [exact H|].
        intros ->. by rewrite Hi in H.
      * rewrite elem_of_union, elem_of_singleton. intros [-> | Hr].
        -- right. exists i. apply lookup_insert_eq.
        -- apply IH in Hr. destruct Hr as [H | [key H]]; [by left|].
           right. exists key. rewrite lookup_insert_ne; [exact H|].
           intros ->. by rewrite Hi in H.
    + intros [H | [key H]].
      * destruct h; [|apply elem_of_union_r]; apply IH; by left.
      * destruct (decide (i = key)) as [->|Hne].
        -- rewrite lookup_insert_eq in H. injection H as ->.
           apply elem_of_union_l, elem_of_singleton. reflexivity.
        -- rewrite lookup_insert_ne in H by exact Hne.
           destruct h; [|apply elem_of_union_r]; apply IH; right; eauto.
Qed.

(** X6.  [stopAllStreams()], and [stopStream] with a missing or empty key,
    return [true], empty the registry ([isStreaming()] is [false]
    afterwards), clear the uptime interval, and send SIGTERM to exactly the
    processes that were registered: mock entries are not signalled, nothing
    is started, and the status rows are not written. *)
Theorem stopAllStreams_signals_every_process key m w :
  JS.truthy_str key = false →
  result_of (stopStream key m w) = Returned true ∧
  activeStreams (engine_of (stopStream key m w)) = ∅ ∧
  result_of (isStreaming (engine_of (stopStream key m w)) (world_of (stopStream key m w)))
    = Returned false ∧
  uptimeInterval (engine_of (stopStream key m w)) = None ∧
  (∀ pid, pid ∈ killed (world_of (stopStream key m w))
          ↔ pid ∈ killed w ∨ ∃ k, activeStreams m !! k = Some (Child pid)) ∧
  spawned (world_of (stopStream key m w)) = spawned w ∧
  stream_status (world_of (stopStream key m w)) = stream_status w.
Proof.
  intros Hk. rewrite (stopStream_all_eq key m w Hk).
  unfold result_of, engine_of, world_of; cbn [fst snd].
  split; [reflexivity|]. split; [reflexivity|]. split; [reflexivity|].
  split; [reflexivity|]. unfold all_signalled.
  rewrite killed_interval_cleared, spawned_interval_cleared, stream_status_interval_cleared.
  cbn [killed spawned stream_status set_killed].
  split; [apply kill_all_spec|]. split; reflexivity.
Qed.

Lemma stopAllStreams_signals_every_process_witness :
  JS.truthy_str (Some ""%string) = false ∧
  activeStreams (engine_of (stopStream (Some ""%string) (engine_of (streaming_A []))
                              (world_of (streaming_A [])))) = ∅ ∧
  0%nat ∈ killed (world_of (stopStream (Some ""%string) (engine_of (streaming_A []))
                              (world_of (streaming_A [])))).
Proof.
  split; [reflexivity|].
  destruct (stopAllStreams_signals_every_process (Some ""%string)
              (engine_of (streaming_A [])) (world_of (streaming_A [])) eq_refl)
    as (_ & H1 & _ & _ & H2 & _).
  split; [exact H1|]. apply H2. right. exists "video_1"%string.
  vm_compute. reflexivity.
Defined.

(** ** More on multi-destination sessions *)

Lemma multi_args_length inputPath platforms :
  length (multi_args inputPath platforms) = (21 + 3 * length platforms)%nat.
Proof.
  unfold multi_args. rewrite length_app. cbn [length].
  induction platforms as [|p ps IH]; [reflexivity|].
  cbn [List.map concat length]. rewrite length_app. cbn [length]. lia.
Qed.



(** ** A close event that arrives after a restart *)

Lemma isStreaming_empty m w :
  activeStreams m = ∅ → result_of (isStreaming m w) = Returned false.
Proof.
  intros H. unfold isStreaming, bind, this, ret, result_of. cbn [fst]. by rewrite H.
Qed.

(** X9.  The [close] listener deletes by key.  When an item that has a
    running session is started again and the close event of the replaced
    process is then delivered (loop off), the event removes the entry of the
    new process: the engine reports not streaming and has stopped uptime
    tracking, while the new process was never signalled, and a later
    [stopAllStreams()] does not signal it either. *)
Theorem close_of_replaced_process videoId config m w video rest old code :
  Sql.select_video videoId (videos w) = video :: rest →
  videoPath video ∈ files w →
  child_process w = true → spawn_ok w = true →
  loopEnabled m = false →
  activeStreams m = {[ video_key videoId := Child old ]} →
  length (spawned w) ∉ killed w → old ≠ length (spawned w) →
  let r := startStream videoId config m w in
  let r' := on_close (video_key videoId) code (engine_of r) (world_of r) in
  let r'' := stopAllStreams (engine_of r') (world_of r') in
  activeStreams (engine_of r) !! video_key videoId = Some (Child (length (spawned w))) ∧
  activeStreams (engine_of r') = ∅ ∧
  result_of (isStreaming (engine_of r') (world_of r')) = Returned false ∧
  uptimeInterval (engine_of r') = None ∧
  (length (spawned w) ∉ killed (world_of r')) ∧
  (length (spawned w) ∉ killed (world_of r'')).
Proof.
  intros H Hf Hc Hs Hloop Hreg Hfresh Hne. cbv zeta.
  destruct (startStream_real videoId config m w video rest H Hf Hc Hs)
    as (m' & w' & -> & Ha & _ & Hl & _ & _ & _ & _ & Hk & _).
  unfold engine_of, world_of; cbn [fst snd].
  rewrite Hreg, lookup_singleton_eq in Hk.
  assert (Hreg' : activeStreams m' = {[ video_key videoId := Child (length (spawned w)) ]}).
  { rewrite Ha, Hreg. apply insert_singleton_eq. }
  rewrite !on_close_loop_disabled by (by rewrite Hl). cbn [fst snd].
  assert (Hempty : activeStreams (tracking_stopped (entry_deleted (video_key videoId) m')) = ∅).
  { cbn. rewrite Hreg'. apply delete_singleton_eq. }
  split; [rewrite Hreg'; apply lookup_singleton_eq|].
  split; [exact Hempty|]. split.
  { apply isStreaming_empty, Hempty. }
  split; [reflexivity|].
  assert (Hk' : length (spawned w) ∉ killed (interval_cleared (uptimeInterval m') w')).
  { rewrite killed_interval_cleared, Hk, elem_of_union, elem_of_singleton.
    intros [E | E]; [by apply Hne | by apply Hfresh]. }
  split; [exact Hk'|].
  rewrite stopAllStreams_eq. cbn [snd]. unfold all_signalled.
  rewrite killed_interval_cleared. cbn [killed set_killed].
  rewrite Hempty, map_fold_empty. exact Hk'.
Qed.

Lemma close_of_replaced_process_witness :
  activeStreams (engine_of (streaming_A [])) = {[ video_key 1 := Child 0 ]} ∧
  activeStreams
    (engine_of (on_close (video_key 1) 0
       (engine_of (startStream 1 profile_abc (engine_of (streaming_A []))
                     (world_of (streaming_A []))))
       (world_of (startStream 1 profile_abc (engine_of (streaming_A []))
                    (world_of (streaming_A [])))))) = ∅ ∧
  (1%nat ∉ killed
    (world_of (on_close (video_key 1) 0
       (engine_of (startStream 1 profile_abc (engine_of (streaming_A []))
                     (world_of (streaming_A []))))
       (world_of (startStream 1 profile_abc (engine_of (streaming_A []))
                    (world_of (streaming_A []))))))).
Proof.
  assert (Hreg : activeStreams (engine_of (streaming_A [])) = {[ video_key 1 := Child 0 ]})
    by (vm_compute; reflexivity).
  split; [exact Hreg|].
  assert (Hsp : spawned (world_of (streaming_A [])) =
                [buildFFmpegArgs (videoPath item_A) (fullRtmpUrl profile_abc) profile_abc])
    by (vm_compute; reflexivity).
  destruct (close_of_replaced_process 1 profile_abc (engine_of (streaming_A []))
              (world_of (streaming_A [])) item_A [] 0%nat 0)
    as (_ & H1 & _ & _ & H2 & _).
  - vm_compute. reflexivity.
  - replace (files (world_of (streaming_A []))) with (files (world_AB []))
      by (vm_compute; reflexivity).
    cbn. apply elem_of_union_l, elem_of_singleton. reflexivity.
  - vm_compute. reflexivity.
  - vm_compute. reflexivity.
  - vm_compute. reflexivity.
  - exact Hreg.
  - replace (killed (world_of (streaming_A []))) with (∅ : gset nat)
      by (vm_compute; reflexivity).
    apply not_elem_of_empty.
  - rewrite Hsp. cbn. lia.
  - rewrite Hsp in H2. cbn [length] in H2. split; [exact H1 | exact H2].
Defined.

(** ** More on the playlist advancer *)

Lemma frame_currentVideoIndex j : frame (λ m _, currentVideoIndex m = j).
Proof. by constructor. Qed.

Lemma playNextVideo_step_cursor m w next :
  loopEnabled m = true → playlist m ≠ [] →
  JS.truthy_num (current_item w) = false →
  playlist_at (playlist m)
    (Z.rem (currentVideoIndex m + 1) (Z.of_nat (length (playlist m)))) = Some next →
  playNextVideo m w =
    try_catch (start_next next) (λ _, ret tt)
      (set_currentVideoIndex
         (Z.rem (currentVideoIndex m + 1) (Z.of_nat (length (playlist m)))) m)
      (set_stream_status
         (List.map (with_current_video (Some (video_id next))) (stream_status w)) w).
Proof.
  intros Hloop Hne Hcur Hnext.
  assert (Hlen : (length (playlist m) =? 0)%nat = false).
  { destruct (playlist m); [contradiction | reflexivity]. }
  unfold playNextVideo, bind at 1, this at 1. rewrite Hloop, Hlen. cbn [negb orb].
  unfold try_catch at 1, bind at 1, world at 1.
  fold (current_item w). rewrite Hcur.
  unfold bind at 1, bind at 1, ret at 1.
  unfold bind at 1, assign_this at 1.
  unfold bind at 1, this at 1.
  cbn [playlist currentVideoIndex set_currentVideoIndex].
  rewrite Hnext.
  unfold bind at 1. rewrite db_update_all_current.
  reflexivity.
Qed.

(** X10.  With the loop on and no current item in the latest status row
    (none, NULL, or 0), an advance does not look anything up: it continues
    from the in-memory cursor, moving it to [(cursor + 1) % N], and persists
    the item at that position as the current item of every status row. *)
Theorem playNextVideo_without_current_item m w :
  loopEnabled m = true → playlist m ≠ [] →
  JS.truthy_num (current_item w) = false →
  0 ≤ currentVideoIndex m →
  ∃ next,
    playlist_at (playlist m)
      ((currentVideoIndex m + 1) `mod` Z.of_nat (length (playlist m))) = Some next ∧
    currentVideoIndex (engine_of (playNextVideo m w)) =
      (currentVideoIndex m + 1) `mod` Z.of_nat (length (playlist m)) ∧
    stream_status (world_of (playNextVideo m w)) =
      List.map (with_current_video (Some (video_id next))) (stream_status w).
Proof.
  intros Hloop Hne Hcur Hpos.
  assert (HN : 0 < Z.of_nat (length (playlist m))) by (destruct (playlist m); [done | cbn; lia]).
  rewrite <- Z.rem_mod_nonneg by lia.
  pose proof (Z.rem_bound_pos (currentVideoIndex m + 1) (Z.of_nat (length (playlist m)))
                ltac:(lia) HN) as Hb.
  assert (Hex : is_Some (playlist_at (playlist m)
                  (Z.rem (currentVideoIndex m + 1) (Z.of_nat (length (playlist m)))))).
  { unfold playlist_at. destruct (Z.ltb_spec (Z.rem (currentVideoIndex m + 1)
                                     (Z.of_nat (length (playlist m)))) 0); [lia|].
    apply lookup_lt_is_Some. lia. }
  destruct Hex as [next Hnext]. exists next. split; [exact Hnext|].
  rewrite (playNextVideo_step_cursor m w next) by assumption.
  split.
  - apply (stable_try_catch (λ m' _, currentVideoIndex m' = _)); [| |reflexivity].
    + apply start_next_stable, frame_currentVideoIndex.
    + intros e. apply stable_ret.
  - apply (stable_try_catch (λ _ w', stream_status w' = _)); [| |reflexivity].
    + apply start_next_stable, frame_stream_status.
    + intros e. apply stable_ret.
Qed.

Lemma playNextVideo_without_current_item_witness :
  JS.truthy_num
    (current_item (set_stream_status [mkStatus 1 "live" 0 "00:00:00" None None true]
                     (world_of (looping_A [])))) = false ∧
  stream_status
    (world_of (playNextVideo (engine_of (looping_A []))
                 (set_stream_status [mkStatus 1 "live" 0 "00:00:00" None None true]
                    (world_of (looping_A [])))))
  = [mkStatus 1 "live" 0 "00:00:00" (Some 2) None true].
Proof.
  split; [reflexivity|].
  destruct (playNextVideo_without_current_item (engine_of (looping_A []))
              (set_stream_status [mkStatus 1 "live" 0 "00:00:00" None None true]
                 (world_of (looping_A [])))) as (next & Hnext & _ & ->).
  - vm_compute. reflexivity.
  - vm_compute. discriminate.
  - reflexivity.
  - vm_compute. discriminate.
  - vm_compute in Hnext. injection Hnext as <-. reflexivity.
Defined.

(** X11.  The advancer works from the snapshot taken at the last start.  If
    the item it moves to has been deleted from [videos] since then, the
    advance still persists the id of the deleted item as the current item;
    the start then fails silently: no process, no registry entry, and the
    loop has come to rest. *)
Theorem playNextVideo_next_item_deleted m w st cur next :
  loopEnabled m = true → playlist m ≠ [] →
  Sql.latest_status (stream_status w) = Some st →
  current_video_id st = Some cur → cur ≠ 0 →
  playlist_at (playlist m) (next_index cur (playlist m)) = Some next →
  Sql.select_video (video_id next) (videos w) = [] →
  playNextVideo m w =
    (Returned tt,
     set_currentVideoIndex (next_index cur (playlist m)) m,
     set_stream_status
       (List.map (with_current_video (Some (video_id next))) (stream_status w)) w).
Proof.
  intros Hloop Hne Hst Hcur Hnz Hnext Hgone.
  rewrite (playNextVideo_step m w st cur next) by assumption.
  unfold try_catch, start_next, bind at 1, world at 1.
  cbn [stream_configs set_stream_status].
  destruct (Sql.active_config (stream_configs w)) as [c|]; [|reflexivity].
  unfold bind. rewrite startStream_video_not_found by exact Hgone. reflexivity.
Qed.

Lemma playNextVideo_next_item_deleted_witness :
  Sql.select_video 2 (videos (world_B_deleted (world_of (looping_A [row_abc])))) = [] ∧
  current_item
    (world_of (playNextVideo (entry_deleted "video_1" (engine_of (looping_A [row_abc])))
                 (world_B_deleted (world_of (looping_A [row_abc]))))) = Some 2 ∧
  activeStreams
    (engine_of (playNextVideo (entry_deleted "video_1" (engine_of (looping_A [row_abc])))
                  (world_B_deleted (world_of (looping_A [row_abc]))))) = ∅.
Proof.
  split; [reflexivity|].
  rewrite (playNextVideo_next_item_deleted
             (entry_deleted "video_1" (engine_of (looping_A [row_abc])))
             (world_B_deleted (world_of (looping_A [row_abc]))) live_row 1 item_B).
  - split; vm_compute; reflexivity.
  - vm_compute. reflexivity.
  - vm_compute. discriminate.
  - vm_compute. reflexivity.
  - reflexivity.
  - discriminate.
  - vm_compute. reflexivity.
  - reflexivity.
Defined.

(** ** The stream routes *)

Lemma max_id_attained rows i :
  Sql.max_id rows = Some i → ∃ r, r ∈ rows ∧ status_id r = i.
Proof.
  revert i. induction rows as [|r rows IH]; intros i; cbn [Sql.max_id]; [discriminate|].
  destruct (Sql.max_id rows) as [j|].
  - intros [= <-]. destruct (Z.max_spec (status_id r) j) as [[_ ->] | [_ ->]].
    + destruct (IH j eq_refl) as (x & Hx & Hid). exists x.
      split; [by apply list_elem_of_further | exact Hid].
    + exists r. split; [apply list_elem_of_here | reflexivity].
  - intros [= <-]. exists r. split; [apply list_elem_of_here | reflexivity].
Qed.

Lemma latest_status_id rows st :
  Sql.latest_status rows = Some st →
  Sql.max_id rows = Some (status_id st) ∧ st ∈ rows.
Proof.
  unfold Sql.latest_status. destruct (Sql.max_id rows) as [i|]; [|discriminate].
  intros H. apply find_some in H. destruct H as [Hin Hid].
  apply Z.eqb_eq in Hid. subst i. split; [reflexivity | by apply list_elem_of_In].
Qed.

Lemma latest_status_nonempty rows :
  rows ≠ [] → ∃ st, Sql.latest_status rows = Some st.
Proof.
  intros Hne. unfold Sql.latest_status.
  destruct (Sql.max_id rows) as [i|] eqn:E.
  - destruct (max_id_attained rows i E) as (r & Hr & Hid).
    destruct (List.find (λ r0, status_id r0 =? i) rows) as [st|] eqn:Ef; [eauto|].
    exfalso. apply list_elem_of_In in Hr.
    pose proof (find_none _ _ Ef r Hr) as Hf. cbn in Hf.
    rewrite Hid, Z.eqb_refl in Hf. discriminate.
  - destruct rows as [|r rows]; [done|]. cbn in E. by destruct (Sql.max_id rows).
Qed.

(** The latest row after [UPDATE ... WHERE id = (SELECT MAX(id) ...)]. *)
Lemma latest_status_updated f rows st :
  (∀ r, status_id (f r) = status_id r) →
  Sql.latest_status rows = Some st →
  Sql.latest_status
    (match Sql.max_id rows with
     | Some i => List.map (λ r, if status_id r =? i then f r else r) rows
     | None => rows
     end) = Some (f st).
Proof.
  intros Hf Hst. destruct (latest_status_id rows st Hst) as [Hmax _].
  rewrite Hmax. rewrite latest_status_map.
  - rewrite Hst. cbn. by rewrite Z.eqb_refl.
  - intros r. destruct (status_id r =? status_id st); [apply Hf | reflexivity].
Qed.

Lemma prop_truthy_unknown row : prop_truthy "currentVideoId" row = false.
Proof. by destruct row. Qed.

(** X12.  [POST /api/stream/restart] reads [currentVideoId] from the status
    row, a property the row does not have (the column is
    [current_video_id]).  So whatever the state, it answers 400 "No video
    selected for streaming" and does nothing: no session is stopped, no row
    is written, no relaunch is scheduled. *)
Theorem route_stream_restart_always_400 m w :
  route_stream_restart m w =
    (Returned (mkResponse 400 (JsonError "No video selected for streaming"), None), m, w).
Proof.
  unfold route_stream_restart, try_catch, bind at 1, world at 1. cbv zeta.
  rewrite prop_truthy_unknown. reflexivity.
Qed.

Lemma db_update_all_loop b m w :
  db_update_all [("loop_playlist", JBool b)] m w =
    (Returned tt, m,
     set_stream_status (List.map (with_loop_playlist b) (stream_status w)) w).
Proof. reflexivity. Qed.

Lemma route_loop_status_eq m w :
  route_loop_status m w =
    (Returned (mkResponse 200
                 (JsonLoop (prop_truthy "loop_playlist" (Sql.latest_status (stream_status w)))
                           (loopEnabled m))), m, w).
Proof. reflexivity. Qed.

(** X13.  The loop routes keep the two copies of the flag together:
    [/api/stream/loop/enable] sets [loop_playlist] of every status row and
    the flag of the engine to [true], [/api/stream/loop/disable] both to
    [false]; nothing else changes (no session is started or stopped).
    [/api/stream/loop/status] asked next reports the new value twice, except
    that without any status row the persisted side reads [false]. *)
Theorem route_loop_sets_both_copies m w :
  route_loop_enable m w =
    (Returned (mkResponse 200 (JsonMessage "24x7 loop enabled")),
     set_loopEnabled true m,
     set_stream_status (List.map (with_loop_playlist true) (stream_status w)) w) ∧
  route_loop_disable m w =
    (Returned (mkResponse 200 (JsonMessage "24x7 loop disabled")),
     set_loopEnabled false m,
     set_stream_status (List.map (with_loop_playlist false) (stream_status w)) w) ∧
  result_of (route_loop_status (engine_of (route_loop_enable m w))
                               (world_of (route_loop_enable m w))) =
    Returned (mkResponse 200
                (JsonLoop (bool_decide (stream_status w ≠ [])) true)) ∧
  result_of (route_loop_status (engine_of (route_loop_disable m w))
                               (world_of (route_loop_disable m w))) =
    Returned (mkResponse 200 (JsonLoop false false)).
Proof.
  assert (He : ∀ b msg err,
    try_catch (db_update_all [("loop_playlist", JBool b)] ;;; setLoopEnabled b ;;;
               ret (mkResponse 200 (JsonMessage msg)))
              (λ _, ret (mkResponse 500 (JsonError err))) m w =
    (Returned (mkResponse 200 (JsonMessage msg)), set_loopEnabled b m,
     set_stream_status (List.map (with_loop_playlist b) (stream_status w)) w)).
  { intros b msg err. unfold try_catch, bind. rewrite db_update_all_loop. reflexivity. }
  assert (Hlatest : ∀ b,
    prop_truthy "loop_playlist"
      (Sql.latest_status (List.map (with_loop_playlist b) (stream_status w))) =
    (b && bool_decide (stream_status w ≠ []))%bool).
  { intros b. rewrite latest_status_map by reflexivity.
    destruct (stream_status w) as [|r rows] eqn:E.
    - cbn. by rewrite andb_false_r.
    - rewrite bool_decide_eq_true_2 by done. rewrite andb_true_r.
      destruct (latest_status_nonempty (r :: rows)) as [st ->]; [done | reflexivity]. }
  unfold route_loop_enable, route_loop_disable. rewrite !He.
  split; [reflexivity|]. split; [reflexivity|].
  rewrite !route_loop_status_eq. unfold result_of, engine_of, world_of.
  cbn [fst snd stream_status set_stream_status loopEnabled set_loopEnabled].
  rewrite !Hlatest. split; reflexivity.
Qed.

Lemma db_update_latest_stop m w :
  db_update_latest [ ("status", JStr "offline"); ("current_video_id", JNull);
                     ("started_at", JNull); ("loop_playlist", JBool false) ] m w =
    (Returned tt, m,
     set_stream_status
       (match Sql.max_id (stream_status w) with
        | Some i => List.map (λ r, if status_id r =? i then row_stopped r else r)
                             (stream_status w)
        | None => stream_status w
        end) w).
Proof. reflexivity. Qed.

Lemma db_update_latest_live now m w :
  db_update_latest [ ("status", JStr "live"); ("started_at", JDate now) ] m w =
    (Returned tt, m,
     set_stream_status
       (match Sql.max_id (stream_status w) with
        | Some i => List.map (λ r, if status_id r =? i then row_live now r else r)
                             (stream_status w)
        | None => stream_status w
        end) w).
Proof. reflexivity. Qed.

Lemma db_update_latest_current n m w :
  db_update_latest [ ("current_video_id", JNum n) ] m w =
    (Returned tt, m,
     set_stream_status
       (match Sql.max_id (stream_status w) with
        | Some i => List.map (λ r, if status_id r =? i then with_current_video (Some n) r
                                   else r)
                             (stream_status w)
        | None => stream_status w
        end) w).
Proof. reflexivity. Qed.

(** The world after the statement of the stop route. *)
Lemma route_stream_stop_eq m w :
  ∃ w',
    route_stream_stop m w =
      (Returned (mkResponse 200 (JsonRow (Sql.latest_status (stream_status w')))),
       set_loopEnabled false (all_stopped m), w') ∧
    stream_status w' =
      match Sql.max_id (stream_status w) with
      | Some i => List.map (λ r, if status_id r =? i then row_stopped r else r)
                           (stream_status w)
      | None => stream_status w
      end ∧
    spawned w' = spawned w ∧
    killed w' = killed (all_signalled m w).
Proof.
  unfold route_stream_stop, try_catch, bind.
  rewrite stopAllStreams_eq. unfold setLoopEnabled, assign_this.
  rewrite db_update_latest_stop. unfold world, ret.
  eexists. split; [reflexivity|]. cbn [stream_status spawned killed set_stream_status].
  unfold all_signalled.
  rewrite stream_status_interval_cleared, spawned_interval_cleared. by repeat split.
Qed.

(** X16.  [POST /api/stream/stop] answers 200 and leaves the engine with an
    empty registry, the loop flag off and no uptime interval; every
    registered process was sent SIGTERM.  The latest status row becomes
    [offline] with no current item, no start time and the loop flag off; its
    [uptime] and [viewer_count] keep their last values.  When the close event
    of a stopped process arrives afterwards, nothing further happens: no
    advance, no write. *)
Theorem route_stream_stop_effects m w st :
  Sql.latest_status (stream_status w) = Some st →
  result_of (route_stream_stop m w) =
    Returned (mkResponse 200 (JsonRow (Some (row_stopped st)))) ∧
  engine_of (route_stream_stop m w) = set_loopEnabled false (all_stopped m) ∧
  activeStreams (engine_of (route_stream_stop m w)) = ∅ ∧
  Sql.latest_status (stream_status (world_of (route_stream_stop m w))) =
    Some (row_stopped st) ∧
  (∀ pid, pid ∈ killed (world_of (route_stream_stop m w))
          ↔ pid ∈ killed w ∨ ∃ k, activeStreams m !! k = Some (Child pid)) ∧
  spawned (world_of (route_stream_stop m w)) = spawned w ∧
  (∀ key code,
     on_close key code (engine_of (route_stream_stop m w))
                       (world_of (route_stream_stop m w)) =
       (Returned tt, engine_of (route_stream_stop m w),
        world_of (route_stream_stop m w))).
Proof.
  intros Hst. destruct (route_stream_stop_eq m w) as (w' & -> & Hrows & Hsp & Hk).
  unfold result_of, engine_of, world_of; cbn [fst snd].
  assert (Hl : Sql.latest_status (stream_status w') = Some (row_stopped st)).
  { rewrite Hrows. by apply latest_status_updated. }
  rewrite Hl. split; [reflexivity|]. split; [reflexivity|]. split; [reflexivity|].
  split; [reflexivity|]. split.
  { intros pid. rewrite Hk. unfold all_signalled.
    rewrite killed_interval_cleared. cbn [killed set_killed]. apply kill_all_spec. }
  split; [exact Hsp|].
  intros key code. rewrite on_close_loop_disabled by reflexivity.
  rewrite entry_deleted_absent by apply lookup_empty. reflexivity.
Qed.

Lemma route_stream_stop_effects_witness :
  Sql.latest_status (stream_status (world_of (looping_A [row_abc]))) = Some live_row ∧
  result_of (route_stream_stop (engine_of (looping_A [row_abc]))
                               (world_of (looping_A [row_abc]))) =
    Returned (mkResponse 200
                (JsonRow (Some (mkStatus 1 "offline" 7 "00:00:10" None None false)))) ∧
  0%nat ∈ killed (world_of (route_stream_stop (engine_of (looping_A [row_abc]))
                                              (world_of (looping_A [row_abc])))).
Proof.
  assert (H : Sql.latest_status (stream_status (world_of (looping_A [row_abc])))
              = Some live_row) by (vm_compute; reflexivity).
  split; [exact H|].
  destruct (route_stream_stop_effects (engine_of (looping_A [row_abc]))
              (world_of (looping_A [row_abc])) live_row H) as (H1 & _ & _ & _ & H2 & _).
  split; [exact H1|]. apply H2. right. exists "video_1"%string. vm_compute. reflexivity.
Defined.

(** *** Starting through the route *)

Lemma route_stream_start_ok m w st videoId video rest c :
  Sql.latest_status (stream_status w) = Some st →
  current_video_id st = Some videoId → videoId ≠ 0 →
  Sql.select_video videoId (videos w) = video :: rest →
  videoPath video ∈ files w →
  Sql.active_config (stream_configs w) = Some c →
  child_process w = true → spawn_ok w = true →
  ∃ m' w',
    route_stream_start m w =
      (Returned (mkResponse 200 (JsonRow (Some (row_live (clock w) st)))), m', w') ∧
    Sql.latest_status (stream_status w') = Some (row_live (clock w) st) ∧
    loopEnabled m' = loop_playlist st ∧
    activeStreams m' =
      <[video_key videoId := Child (length (spawned w))]> (activeStreams m) ∧
    spawned w' =
      spawned w ++ [buildFFmpegArgs (videoPath video) (fullRtmpUrl (config_of_row c))
                                    (config_of_row c)].
Proof.
  intros Hst Hcur Hnz Hsel Hf Hcfg Hc Hs.
  assert (Ht : prop_truthy "current_video_id" (Some st) = true).
  { unfold prop_truthy. cbn. rewrite Hcur. cbn. by destruct (Z.eqb_spec videoId 0). }
  destruct (startStream_real videoId (config_of_row c)
              (set_loopEnabled (loop_playlist st) m) w video rest Hsel Hf Hc Hs)
    as (m' & w' & Hstart & Ha & _ & Hl & _ & _ & _ & Hsp & _ & Hrows & _ & _ & _ & Hclock).
  exists m'.
  unfold route_stream_start, try_catch, bind at 1, world at 1. cbv zeta.
  rewrite Hst, Ht, Hcur, Hsel, Hcfg. cbn [negb].
  unfold bind at 1, setLoopEnabled at 1, assign_this at 1.
  unfold bind at 1. rewrite Hstart. cbn [negb].
  unfold bind at 1, world at 1. unfold bind at 1. rewrite db_update_latest_live.
  unfold bind, world, ret.
  assert (Hl' : Sql.latest_status
            (match Sql.max_id (stream_status w') with
             | Some i => List.map (λ r, if status_id r =? i then row_live (clock w') r else r)
                                  (stream_status w')
             | None => stream_status w'
             end) = Some (row_live (clock w) st)).
  { rewrite Hclock, Hrows. by apply latest_status_updated. }
  eexists. cbn [stream_status set_stream_status]. rewrite Hl'.
  split; [reflexivity|]. cbn [stream_status spawned set_stream_status].
  split; [exact Hl'|]. split; [exact Hl|]. split; [exact Ha | exact Hsp].
Qed.

(** X14.  [POST /api/stream/start] with a latest status row that names an
    existing item whose file is on disk, an active profile and a runtime that
    spawns: the loop flag of the engine is first set to the persisted
    [loop_playlist] of that row, one ffmpeg process is started for the item
    with the active profile, the registry holds it under the key of the item,
    the latest row becomes [live] with the current time as start time, and
    that row is the 200 answer. *)
Theorem route_stream_start_success m w st videoId video rest c :
  Sql.latest_status (stream_status w) = Some st →
  current_video_id st = Some videoId → videoId ≠ 0 →
  Sql.select_video videoId (videos w) = video :: rest →
  videoPath video ∈ files w →
  Sql.active_config (stream_configs w) = Some c →
  child_process w = true → spawn_ok w = true →
  result_of (route_stream_start m w) =
    Returned (mkResponse 200 (JsonRow (Some (row_live (clock w) st)))) ∧
  Sql.latest_status (stream_status (world_of (route_stream_start m w))) =
    Some (row_live (clock w) st) ∧
  loopEnabled (engine_of (route_stream_start m w)) = loop_playlist st ∧
  activeStreams (engine_of (route_stream_start m w)) !! video_key videoId =
    Some (Child (length (spawned w))) ∧
  spawned (world_of (route_stream_start m w)) =
    spawned w ++ [buildFFmpegArgs (videoPath video) (fullRtmpUrl (config_of_row c))
                                  (config_of_row c)].
Proof.
  intros Hst Hcur Hnz Hsel Hf Hcfg Hc Hs.
  destruct (route_stream_start_ok m w st videoId video rest c Hst Hcur Hnz Hsel Hf Hcfg Hc Hs)
    as (m' & w' & -> & Hl & Hloop & Ha & Hsp).
  unfold result_of, engine_of, world_of; cbn [fst snd].
  split; [reflexivity|]. split; [exact Hl|]. split; [exact Hloop|].
  split; [rewrite Ha; apply lookup_insert_eq | exact Hsp].
Qed.

Lemma route_stream_start_success_witness :
  Sql.latest_status (stream_status (world_AB [row_abc])) = Some live_row ∧
  result_of (route_stream_start constructor (world_AB [row_abc])) =
    Returned (mkResponse 200
                (JsonRow (Some (mkStatus 1 "live" 7 "00:00:10" (Some 1) (Some 1000) false)))) ∧
  activeStreams (engine_of (route_stream_start constructor (world_AB [row_abc])))
    !! video_key 1 = Some (Child 0).
Proof.
  split; [reflexivity|].
  destruct (route_stream_start_success constructor (world_AB [row_abc]) live_row 1
              item_A [] row_abc) as (H1 & _ & _ & H2 & _).
  - reflexivity.
  - reflexivity.
  - discriminate.
  - reflexivity.
  - cbn. apply elem_of_union_l, elem_of_singleton. reflexivity.
  - reflexivity.
  - reflexivity.
  - reflexivity.
  - split; [exact H1 | exact H2].
Defined.

(** X15.  [POST /api/stream/start] refuses with 400 and changes nothing when
    the latest status row has no current item, when the current item is not
    in [videos], and when no profile is active.  When the row, the item and
    the profile are there but the file is not on disk it answers 500; no row
    is written and no session exists, yet the loop flag of the engine has
    already been overwritten with the persisted one. *)
Theorem route_stream_start_refusals m w :
  (prop_truthy "current_video_id" (Sql.latest_status (stream_status w)) = false →
     route_stream_start m w =
       (Returned (mkResponse 400 (JsonError "No video selected for streaming")), m, w)) ∧
  (∀ st videoId,
     Sql.latest_status (stream_status w) = Some st →
     current_video_id st = Some videoId → videoId ≠ 0 →
     Sql.select_video videoId (videos w) = [] →
     route_stream_start m w =
       (Returned (mkResponse 400 (JsonError "Selected video not found")), m, w)) ∧
  (∀ st videoId video rest,
     Sql.latest_status (stream_status w) = Some st →
     current_video_id st = Some videoId → videoId ≠ 0 →
     Sql.select_video videoId (videos w) = video :: rest →
     Sql.active_config (stream_configs w) = None →
     route_stream_start m w =
       (Returned (mkResponse 400 (JsonError "Stream configuration not found")), m, w)) ∧
  (∀ st videoId video rest c,
     Sql.latest_status (stream_status w) = Some st →
     current_video_id st = Some videoId → videoId ≠ 0 →
     Sql.select_video videoId (videos w) = video :: rest →
     Sql.active_config (stream_configs w) = Some c →
     videoPath video ∉ files w →
     route_stream_start m w =
       (Returned (mkResponse 500 (JsonError "Failed to start RTMP stream")),
        set_loopEnabled (loop_playlist st) m, w)).
Proof.
  assert (Ht : ∀ st videoId, current_video_id st = Some videoId → videoId ≠ 0 →
                 prop_truthy "current_video_id" (Some st) = true).
  { intros st videoId Hcur Hnz. unfold prop_truthy. cbn. rewrite Hcur. cbn.
    by destruct (Z.eqb_spec videoId 0). }
  split; [|split; [|split]].
  - intros H. unfold route_stream_start, try_catch, bind at 1, world at 1. cbv zeta.
    rewrite H. reflexivity.
  - intros st videoId Hst Hcur Hnz Hsel.
    unfold route_stream_start, try_catch, bind at 1, world at 1. cbv zeta.
    rewrite Hst, (Ht st videoId Hcur Hnz), Hcur, Hsel. reflexivity.
  - intros st videoId video rest Hst Hcur Hnz Hsel Hcfg.
    unfold route_stream_start, try_catch, bind at 1, world at 1. cbv zeta.
    rewrite Hst, (Ht st videoId Hcur Hnz), Hcur, Hsel, Hcfg. reflexivity.
  - intros st videoId video rest c Hst Hcur Hnz Hsel Hcfg Hf.
    unfold route_stream_start, try_catch, bind at 1, world at 1. cbv zeta.
    rewrite Hst, (Ht st videoId Hcur Hnz), Hcur, Hsel, Hcfg. cbn [negb].
    unfold bind at 1, setLoopEnabled at 1, assign_this at 1.
    unfold bind at 1.
    rewrite (startStream_file_not_found videoId (config_of_row c) _ w video rest Hsel Hf).
    reflexivity.
Qed.

Lemma route_stream_start_refusals_witness :
  Sql.select_video 1 (videos world_no_files) = [item_A] ∧
  (videoPath item_A ∉ files world_no_files) ∧
  route_stream_start constructor
    (mkWorld [item_A; item_B] [row_abc]
             [mkStatus 1 "offline" 0 "00:00:00" (Some 1) None true]
             ∅ true true 1000 [] ∅ 0 ∅) =
    (Returned (mkResponse 500 (JsonError "Failed to start RTMP stream")),
     set_loopEnabled true constructor,
     mkWorld [item_A; item_B] [row_abc]
             [mkStatus 1 "offline" 0 "00:00:00" (Some 1) None true]
             ∅ true true 1000 [] ∅ 0 ∅).
Proof.
  split; [reflexivity|].
  assert (Hf : videoPath item_A ∉ (∅ : gset string)) by apply not_elem_of_empty.
  split; [exact Hf|].
  destruct (route_stream_start_refusals constructor
              (mkWorld [item_A; item_B] [row_abc]
                 [mkStatus 1 "offline" 0 "00:00:00" (Some 1) None true]
                 ∅ true true 1000 [] ∅ 0 ∅)) as (_ & _ & _ & H).
  apply (H (mkStatus 1 "offline" 0 "00:00:00" (Some 1) None true) 1 item_A [] row_abc);
    [reflexivity | reflexivity | discriminate | reflexivity | reflexivity | exact Hf].
Defined.

(** *** Selecting the current item *)

Lemma route_stream_set_current_ok id m w video rest :
  id ≠ 0 → Sql.select_video id (videos w) = video :: rest →
  route_stream_set_current (Some id) m w =
    (Returned (mkResponse 200
       (JsonRow (Sql.latest_status
          (match Sql.max_id (stream_status w) with
           | Some i => List.map (λ r, if status_id r =? i
                                      then with_current_video (Some id) r else r)
                                (stream_status w)
           | None => stream_status w
           end)))),
     m,
     set_stream_status
       (match Sql.max_id (stream_status w) with
        | Some i => List.map (λ r, if status_id r =? i
                                   then with_current_video (Some id) r else r)
                             (stream_status w)
        | None => stream_status w
        end) w).
Proof.
  intros Hnz Hsel. unfold route_stream_set_current, try_catch.
  assert (Ht : JS.truthy_num (Some id) = true) by (cbn; by destruct (Z.eqb_spec id 0)).
  rewrite Ht. cbn [negb]. cbv zeta.
  unfold bind at 1, world at 1. change (default 0 (Some id)) with id. rewrite Hsel.
  unfold bind at 1. rewrite db_update_latest_current. reflexivity.
Qed.



(** X18.  Selecting an item and then starting: after
    [/api/stream/set-current] for an existing item whose file is on disk,
    [/api/stream/start] (active profile, runtime that spawns, a status row)
    streams that item: it answers 200 with the row [live] on that item, and
    the registry holds a process under the key of the item. *)
Theorem set_current_then_start id m w video rest st c :
  id ≠ 0 → Sql.select_video id (videos w) = video :: rest →
  videoPath video ∈ files w →
  Sql.latest_status (stream_status w) = Some st →
  Sql.active_config (stream_configs w) = Some c →
  child_process w = true → spawn_ok w = true →
  let r := route_stream_set_current (Some id) m w in
  let r' := route_stream_start (engine_of r) (world_of r) in
  result_of r' =
    Returned (mkResponse 200
                (JsonRow (Some (row_live (clock w) (with_current_video (Some id) st))))) ∧
  current_item (world_of r') = Some id ∧
  activeStreams (engine_of r') !! video_key id = Some (Child (length (spawned w))) ∧
  loopEnabled (engine_of r') = loop_playlist st.
Proof.
  intros Hnz Hsel Hf Hst Hcfg Hc Hs. cbv zeta.
  rewrite (route_stream_set_current_ok id m w video rest Hnz Hsel).
  unfold result_of, engine_of, world_of, current_item; cbn [fst snd].
  set (w1 := set_stream_status _ w).
  assert (Hst1 : Sql.latest_status (stream_status w1) =
                 Some (with_current_video (Some id) st)).
  { unfold w1. cbn [stream_status set_stream_status].
    by apply latest_status_updated. }
  destruct (route_stream_start_ok m w1 (with_current_video (Some id) st) id video rest c
              Hst1 eq_refl Hnz Hsel Hf Hcfg Hc Hs)
    as (m' & w' & Heq & Hl & Hloop & Ha & _).
  rewrite Heq. cbn [fst snd].
  rewrite Hl. split; [reflexivity|]. split; [reflexivity|].
  split; [rewrite Ha; apply lookup_insert_eq | exact Hloop].
Qed.

Lemma set_current_then_start_witness :
  Sql.select_video 2 (videos (world_AB [row_abc])) = [item_B] ∧
  result_of (route_stream_start
               (engine_of (route_stream_set_current (Some 2) constructor (world_AB [row_abc])))
               (world_of (route_stream_set_current (Some 2) constructor (world_AB [row_abc])))) =
    Returned (mkResponse 200
                (JsonRow (Some (mkStatus 1 "live" 7 "00:00:10" (Some 2) (Some 1000) false)))).
Proof.
  split; [reflexivity|].
  destruct (set_current_then_start 2 constructor (world_AB [row_abc]) item_B [] live_row
              row_abc) as (H & _).
  - discriminate.
  - reflexivity.
  - cbn. apply elem_of_union_r, elem_of_singleton. reflexivity.
  - reflexivity.
  - reflexivity.
  - reflexivity.
  - reflexivity.
  - exact H.
Defined.

(** ** Deleting an item *)

Lemma select_video_deleted id vs :
  Sql.select_video id (List.filter (λ v, negb (video_id v =? id)) vs) = [].
Proof.
  unfold Sql.select_video. induction vs as [|v vs IH]; [reflexivity|].
  cbn. destruct (video_id v =? id) eqn:E; cbn; [exact IH|].
  rewrite E. exact IH.
Qed.

Lemma select_video_other id id' vs :
  id' ≠ id →
  Sql.select_video id' (List.filter (λ v, negb (video_id v =? id)) vs) =
  Sql.select_video id' vs.
Proof.
  intros Hne. unfold Sql.select_video. induction vs as [|v vs IH]; [reflexivity|].
  cbn. destruct (Z.eqb_spec (video_id v) id) as [E|E]; cbn.
  - destruct (Z.eqb_spec (video_id v) id'); [congruence | exact IH].
  - destruct (video_id v =? id'); [by rewrite IH | exact IH].
Qed.

Lemma route_videos_delete_eq id m w video rest :
  Sql.select_video id (videos w) = video :: rest →
  route_videos_delete id m w =
    (Returned (mkResponse 200 (JsonMessage "Video deleted successfully")), m,
     set_videos (List.filter (λ v, negb (video_id v =? id)) (videos w))
       (set_files (files w ∖ {[ videoPath video ]}) w)).
Proof.
  intros Hsel. unfold route_videos_delete, try_catch, bind at 1, world at 1.
  rewrite Hsel. destruct (decide (videoPath video ∈ files w)) as [Hin|Hout].
  - rewrite bool_decide_eq_true_2 by exact Hin. reflexivity.
  - rewrite bool_decide_eq_false_2 by exact Hout.
    unfold bind, ret, effect. cbn.
    replace (files w ∖ {[videoPath video]}) with (files w)
      by (symmetry; apply difference_disjoint_L; by apply disjoint_singleton_r).
    by destruct w.
Qed.



(** ** Saving a profile *)

Lemma active_config_deactivated cs : Sql.active_config (List.map deactivated cs) = None.
Proof.
  induction cs as [|c cs IH]; [reflexivity|]. cbn. rewrite IH. reflexivity.
Qed.

Lemma active_config_appended cs row :
  cfg_is_active row = true →
  Sql.active_config (List.map deactivated cs ++ [row]) = Some row.
Proof.
  intros Hrow. induction cs as [|c cs IH]; cbn.
  - by rewrite Hrow.
  - rewrite IH. reflexivity.
Qed.



(** ** Uploading an item *)

Lemma max_playlist_order_ge vs v :
  v ∈ vs → playlist_order v ≤ default 0 (max_playlist_order vs).
Proof.
  induction vs as [|x vs IH]; intros Hin; [by apply elem_of_nil in Hin|].
  cbn [max_playlist_order]. apply elem_of_cons in Hin.
  destruct (max_playlist_order vs) as [mx|] eqn:E; cbn in *.
  - destruct Hin as [-> | Hin]; [lia|]. specialize (IH Hin). lia.
  - destruct Hin as [-> | Hin]; [lia|].
    destruct vs as [|y vs]; [by apply elem_of_nil in Hin|].
    cbn in E. by destruct (max_playlist_order vs).
Qed.

Lemma insert_video_before_last v S new :
  playlist_order v ≤ playlist_order new →
  Sql.insert_video v (S ++ [new]) = Sql.insert_video v S ++ [new].
Proof.
  intros Hle. induction S as [|x S IH]; cbn.
  - destruct (Z.leb_spec (playlist_order v) (playlist_order new)); [reflexivity | lia].
  - destruct (playlist_order v <=? playlist_order x); [reflexivity|].
    by rewrite IH.
Qed.

Lemma videos_by_order_last vs new :
  (∀ v, v ∈ vs → playlist_order v ≤ playlist_order new) →
  Sql.videos_by_order (vs ++ [new]) = Sql.videos_by_order vs ++ [new].
Proof.
  unfold Sql.videos_by_order. intros Hle. rewrite fold_right_app. cbn [fold_right Sql.insert_video].
  induction vs as [|v vs IH]; [reflexivity|].
  cbn [fold_right]. rewrite IH.
  - apply insert_video_before_last, Hle, list_elem_of_here.
  - intros x Hx. by apply Hle, list_elem_of_further.
Qed.



(** ** Reordering the playlist *)

Lemma insert_video_perm v vs : Sql.insert_video v vs ≡ₚ v :: vs.
Proof.
  induction vs as [|x vs IH]; cbn; [done|].
  destruct (playlist_order v <=? playlist_order x); [done|].
  rewrite IH. apply Permutation_swap.
Qed.

Lemma videos_by_order_perm vs : Sql.videos_by_order vs ≡ₚ vs.
Proof.
  unfold Sql.videos_by_order. induction vs as [|v vs IH]; cbn; [done|].
  by rewrite insert_video_perm, IH.
Qed.

Lemma insert_video_sorted v vs :
  StronglySorted Z.le (playlist_order <$> vs) →
  StronglySorted Z.le (playlist_order <$> Sql.insert_video v vs).
Proof.
  induction vs as [|x vs IH]; intros Hs; cbn.
  - repeat constructor.
  - destruct (Z.leb_spec (playlist_order v) (playlist_order x)) as [Hle|Hgt]; csimpl in *.
    + constructor; [exact Hs|]. inversion Hs as [|? ? _ Hall]; subst.
      constructor; [exact Hle|]. eapply Forall_impl; [exact Hall|]. intros; cbn in *; lia.
    + inversion Hs as [|? ? Hrest Hall]; subst. constructor; [by apply IH|].
      rewrite insert_video_perm. csimpl. constructor; [lia | exact Hall].
Qed.

Lemma videos_by_order_sorted vs :
  StronglySorted Z.le (playlist_order <$> Sql.videos_by_order vs).
Proof.
  unfold Sql.videos_by_order. induction vs as [|v vs IH]; cbn; [constructor|].
  by apply insert_video_sorted.
Qed.

Lemma update_order_lookup o id vs i :
  update_order o id vs !! i =
  (λ v, if video_id v =? id then with_playlist_order o v else v) <$> vs !! i.
Proof. unfold update_order. apply (list_lookup_fmap _ vs i). Qed.

Lemma update_order_ids o id vs : video_id <$> update_order o id vs = video_id <$> vs.
Proof.
  apply list_eq. intros i. rewrite !list_lookup_fmap, update_order_lookup.
  destruct (vs !! i) as [v|]; [|done]. cbn. by destruct (video_id v =? id).
Qed.

Lemma reorder_from_ids k ids vs : video_id <$> reorder_from k ids vs = video_id <$> vs.
Proof.
  revert k vs. induction ids as [|id rest IH]; intros k vs; cbn; [done|].
  by rewrite IH, update_order_ids.
Qed.

Lemma reorder_from_untouched k ids vs i v :
  vs !! i = Some v → video_id v ∉ ids → reorder_from k ids vs !! i = Some v.
Proof.
  revert k vs. induction ids as [|id rest IH]; intros k vs Hv Hn; cbn; [done|].
  apply not_elem_of_cons in Hn as [Hne Hn]. apply IH; [|exact Hn].
  rewrite update_order_lookup, Hv. cbn.
  by destruct (Z.eqb_spec (video_id v) id).
Qed.

Lemma reorder_from_order k ids vs j i v' :
  NoDup ids → ids !! j = Some (video_id v') →
  reorder_from k ids vs !! i = Some v' →
  playlist_order v' = k + Z.of_nat j.
Proof.
  revert k vs j. induction ids as [|id rest IH]; intros k vs j Hnd Hj Hi; [done|].
  apply NoDup_cons in Hnd as [Hnotin Hnd]. cbn in Hi.
  destruct j as [|j]; cbn in Hj.
  - injection Hj as ->.
    assert (∃ u, update_order k (video_id v') vs !! i = Some u) as [u Hu].
    { apply lookup_lt_is_Some.
      rewrite <- (length_fmap video_id),
        <- (reorder_from_ids (k + 1) rest), length_fmap.
      by eapply lookup_lt_Some. }
    assert (Hid : video_id u = video_id v').
    { pose proof (reorder_from_ids (k + 1) rest (update_order k (video_id v') vs)) as E.
      apply (f_equal (.!! i)) in E. rewrite !list_lookup_fmap, Hi, Hu in E.
      by injection E. }
    rewrite (reorder_from_untouched _ _ _ _ _ Hu) in Hi by (by rewrite Hid).
    injection Hi as <-. rewrite update_order_lookup in Hu.
    destruct (vs !! i) as [v|]; [|done]. cbn in Hu. injection Hu as Hu.
    destruct (Z.eqb_spec (video_id v) (video_id u)) as [E|E].
    + subst u. cbn. lia.
    + subst u. by destruct E.
  - rewrite (IH (k + 1) _ j Hnd Hj Hi). lia.
Qed.

Lemma reorder_from_rows k ids vs i v :
  vs !! i = Some v →
  ∃ o, reorder_from k ids vs !! i = Some (with_playlist_order o v).
Proof.
  revert k vs v. induction ids as [|id rest IH]; intros k vs v Hv; cbn.
  - exists (playlist_order v). rewrite Hv. by destruct v.
  - destruct (IH (k + 1) (update_order k id vs)
                (if video_id v =? id then with_playlist_order k v else v)) as [o Ho].
    { by rewrite update_order_lookup, Hv. }
    exists o. rewrite Ho. by destruct (video_id v =? id).
Qed.

Lemma positions_sorted k n :
  StronglySorted Z.le ((λ j, k + Z.of_nat j) <$> seq 0 n).
Proof.
  apply (StronglySorted_fmap _ le); [intros; lia|].
  generalize 0%nat. induction n as [|n IH]; intros s; cbn; constructor; [apply IH|].
  apply Forall_forall. intros x Hx. apply elem_of_seq in Hx. lia.
Qed.

Lemma reorder_from_orders k ids vs :
  NoDup ids → video_id <$> vs ≡ₚ ids →
  playlist_order <$> Sql.videos_by_order (reorder_from k ids vs) =
  (λ j, k + Z.of_nat j) <$> seq 0 (length ids).
Proof.
  intros Hnd Hperm.
  set (g := λ id : Z, match list_find (eq id) ids with
                      | Some p => k + Z.of_nat p.1
                      | None => 0
                      end).
  assert (Hg : ∀ j id, ids !! j = Some id → g id = k + Z.of_nat j).
  { intros j id Hj. unfold g.
    assert (list_find (eq id) ids = Some (j, id)) as ->; [|done].
    apply list_find_Some. split; [exact Hj|]. split; [done|].
    intros j' y Hj' Hlt <-. pose proof (NoDup_lookup _ _ _ _ Hnd Hj Hj'). lia. }
  apply (StronglySorted_unique Z.le);
    [apply videos_by_order_sorted | apply positions_sorted |].
  rewrite videos_by_order_perm.
  assert (E1 : playlist_order <$> reorder_from k ids vs =
               g <$> (video_id <$> reorder_from k ids vs)).
  { rewrite <- list_fmap_compose. apply list_eq. intros i. rewrite !list_lookup_fmap.
    destruct (reorder_from k ids vs !! i) as [v'|] eqn:Hi; [|done]. cbn. f_equal.
    assert (Hin : video_id v' ∈ ids).
    { rewrite <- Hperm, <- (reorder_from_ids k ids vs).
      apply list_elem_of_fmap. exists v'. split; [done|]. by eapply list_elem_of_lookup_2. }
    apply list_elem_of_lookup_1 in Hin as [j Hj].
    rewrite (Hg j _ Hj). by eapply reorder_from_order. }
  rewrite E1, reorder_from_ids, Hperm.
  assert (E2 : g <$> ids = (λ j, k + Z.of_nat j) <$> seq 0 (length ids)); [|by rewrite E2].
  apply list_eq. intros j. rewrite !list_lookup_fmap.
  destruct (ids !! j) as [id|] eqn:Hj; cbn.
  - rewrite (lookup_seq_lt _ _ _ (lookup_lt_Some _ _ _ Hj)). cbn. f_equal. by apply Hg.
  - rewrite lookup_seq_ge; [done|]. by apply lookup_ge_None.
Qed.

Lemma reorder_from_playlist k ids vs :
  NoDup ids → video_id <$> vs ≡ₚ ids →
  video_id <$> Sql.videos_by_order (reorder_from k ids vs) = ids.
Proof.
  intros Hnd Hperm. pose proof (reorder_from_orders k ids vs Hnd Hperm) as Ho.
  assert (Hlen : length (Sql.videos_by_order (reorder_from k ids vs)) = length ids).
  { rewrite videos_by_order_perm, <- (length_fmap video_id), reorder_from_ids, Hperm. done. }
  apply list_eq. intros j. rewrite list_lookup_fmap.
  destruct (Sql.videos_by_order (reorder_from k ids vs) !! j) as [v'|] eqn:Hj; cbn.
  - assert (Hoj : playlist_order v' = k + Z.of_nat j).
    { apply (f_equal (.!! j)) in Ho. rewrite !list_lookup_fmap, Hj in Ho.
      rewrite lookup_seq_lt in Ho by (rewrite <- Hlen; by eapply lookup_lt_Some).
      by injection Ho. }
    assert (Hin : v' ∈ reorder_from k ids vs).
    { rewrite <- videos_by_order_perm. by eapply list_elem_of_lookup_2. }
    apply list_elem_of_lookup_1 in Hin as [i Hi].
    assert (Hin : video_id v' ∈ ids).
    { rewrite <- Hperm, <- (reorder_from_ids k ids vs).
      apply list_elem_of_fmap. exists v'. split; [done|]. by eapply list_elem_of_lookup_2. }
    apply list_elem_of_lookup_1 in Hin as [j' Hj'].
    pose proof (reorder_from_order k ids vs j' i v' Hnd Hj' Hi).
    assert (j' = j) as -> by lia. by rewrite Hj'.
  - symmetry. apply lookup_ge_None. rewrite <- Hlen. by apply lookup_ge_None.
Qed.

(** X22.  [POST /api/videos/reorder] with [videoIds] a list without
    duplicates of exactly the ids of the table: the answer is 200, the rows
    keep their place, id, title and file and only get a new order, and the
    ordered playlist (the snapshot [loadPlaylist] takes at the next start)
    lists the items in exactly the order of [videoIds].  The engine is not
    told: its current snapshot stays as it was.  A body with neither array is
    answered with 400 and changes nothing. *)
Theorem route_videos_reorder_effects videoIds m w :
  NoDup videoIds → video_id <$> videos w ≡ₚ videoIds →
  let r := route_videos_reorder (ByVideoIds videoIds) m w in
  result_of r = Returned (mkResponse 200 (JsonMessage "Playlist reordered successfully")) ∧
  engine_of r = m ∧
  stream_status (world_of r) = stream_status w ∧
  (∀ i v, videos w !! i = Some v →
     ∃ o, videos (world_of r) !! i = Some (with_playlist_order o v)) ∧
  video_id <$> Sql.videos_by_order (videos (world_of r)) = videoIds ∧
  video_id <$> playlist (engine_of (loadPlaylist (engine_of r) (world_of r))) = videoIds ∧
  route_videos_reorder NoArray m w =
    (Returned (mkResponse 400 (JsonMessage "Either videoIds or updates array is required")),
     m, w).
Proof.
  intros Hnd Hperm. cbv zeta.
  assert (E : route_videos_reorder (ByVideoIds videoIds) m w =
    (Returned (mkResponse 200 (JsonMessage "Playlist reordered successfully")), m,
     set_videos (reorder_from 1 videoIds (videos w)) w)) by reflexivity.
  rewrite E. unfold result_of, engine_of, world_of; cbn [fst snd].
  split; [reflexivity|]. split; [reflexivity|]. split; [reflexivity|].
  split; [intros i v Hv; by apply reorder_from_rows|].
  split; [by apply reorder_from_playlist|].
  split; [|reflexivity].
  rewrite loadPlaylist_eq. cbn [fst snd playlist set_playlist videos set_videos].
  by apply reorder_from_playlist.
Qed.

Lemma route_videos_reorder_effects_witness :
  (video_id <$> Sql.videos_by_order (videos (world_AB []))) = [1; 2] ∧
  (video_id <$>
     playlist (engine_of
       (loadPlaylist
          (engine_of (route_videos_reorder (ByVideoIds [2; 1]) constructor (world_AB [])))
          (world_of (route_videos_reorder (ByVideoIds [2; 1]) constructor (world_AB []))))))
  = [2; 1].
Proof.
  split; [reflexivity|].
  assert (Hnd : NoDup [2; 1]) by (apply NoDup_cons; split;
    [rewrite list_elem_of_In; cbn; intros [|[]]; discriminate
    | apply NoDup_singleton]).
  assert (Hperm : video_id <$> videos (world_AB []) ≡ₚ [2; 1]) by apply Permutation_swap.
  destruct (route_videos_reorder_effects [2; 1] constructor (world_AB []) Hnd Hperm)
    as (_ & _ & _ & _ & _ & H & _).
  exact H.
Defined.
